(** * code_navigator: extraction of definitions with tree-sitter

  A shallow embedding of [src/tools/code_navigator.py].

  The script is sequential glue code around three things it does not
  define itself: the Python interpreter's import machinery, the file
  system, and the tree-sitter parsing library.  These are collected in a
  record [World]; every function of the script is translated as a
  computation in a small writer/error monad [M] that records the
  observable effects (imports attempted, files opened, lines printed) and
  threads Python exceptions.

  Conventions.
  - A Python [str] is a [string]; non-ASCII text is held as its UTF-8
    encoding, so [bytes.decode("utf-8")] is a validity check that keeps
    the bytes.
  - [pathlib] is modelled for POSIX paths (separator [/], no drives).
  - The calls that bind a grammar to the parser ([language()],
    [set_language]) and the queries [exists()] and [is_file()] can raise;
    the environment says whether they do, and nothing in the script
    catches what they raise except [ImportError]. *)

From Stdlib Require Import ZArith Lia.
From Stdlib.Strings Require Import Ascii String Byte.
From stdpp Require Import base list strings gmap.

Local Open Scope Z_scope.

(** ** Python string primitives *)

Module Str.

(** [s.startswith(p)] *)
Fixpoint startswith (s p : string) : bool :=
  match p, s with
  | EmptyString, _ => true
  | String b p', String a s' => if Ascii.eqb a b then startswith s' p' else false
  | String _ _, EmptyString => false
  end.

(** [s.endswith(suf)]: some tail of [s] is [suf]. *)
Fixpoint endswith (s suf : string) : bool :=
  String.eqb s suf ||
  match s with
  | EmptyString => false
  | String _ s' => endswith s' suf
  end.

(** [sub in s] *)
Fixpoint contains (sub s : string) : bool :=
  startswith s sub ||
  match s with
  | EmptyString => false
  | String _ s' => contains sub s'
  end.

(** [s.split(sep)] for a one-character separator. *)
Fixpoint split (sep : ascii) (s : string) : list string :=
  match s with
  | EmptyString => [EmptyString]
  | String a s' =>
      if Ascii.eqb a sep then EmptyString :: split sep s'
      else match split sep s' with
           | x :: r => String a x :: r
           | [] => [String a EmptyString]
           end
  end.

(** [sep.join(l)] *)
Fixpoint join (sep : string) (l : list string) : string :=
  match l with
  | [] => EmptyString
  | [x] => x
  | x :: r => x +:+ sep +:+ join sep r
  end.

(** [s.rfind(c)] for a one-character needle, counting from index [i]:
    the greatest index of [c], or [-1]. *)
Fixpoint rfind_from (c : ascii) (s : string) (i : Z) : Z :=
  match s with
  | EmptyString => -1
  | String a s' =>
      let r := rfind_from c s' (i + 1) in
      if 0 <=? r then r else if Ascii.eqb a c then i else -1
  end.

Definition rfind (c : ascii) (s : string) : Z := rfind_from c s 0.

(** [s[i:]] for [0 <= i] *)
Fixpoint drop (i : nat) (s : string) : string :=
  match i, s with
  | O, _ => s
  | S i', String _ s' => drop i' s'
  | S _, EmptyString => EmptyString
  end.

Definition len (s : string) : Z := Z.of_nat (String.length s).

(** truthiness of a [str] *)
Definition truthy (s : string) : bool :=
  match s with EmptyString => false | _ => true end.

End Str.

(** ** [bytes] and UTF-8 decoding *)

Definition bytes := list byte.

(** [content[a:b]] for non-negative [a], [b] *)
Definition slice (content : bytes) (a b : nat) : bytes :=
firstn (b - a) (skipn a content).

Definition in_range (lo hi : N) (b : byte) : bool :=
(N.leb lo (Byte.to_N b) && N.leb (Byte.to_N b) hi)%bool.

Definition is_cont : byte -> bool := in_range 0x80 0xBF.

(** Well-formed UTF-8 byte sequences (Unicode table 3-7), which is what the
  strict decoder of Python accepts: no overlong forms, no surrogates,
  nothing above U+10FFFF. *)
Fixpoint utf8_valid (bs : bytes) : bool :=
match bs with
| [] => true
| b0 :: r0 =>
  if in_range 0x00 0x7F b0 then utf8_valid r0 else
  match r0 with
  | [] => false
  | b1 :: r1 =>
    if (in_range 0xC2 0xDF b0 && is_cont b1)%bool then utf8_valid r1 else
    match r1 with
    | [] => false
    | b2 :: r2 =>
      if ((in_range 0xE0 0xE0 b0 && in_range 0xA0 0xBF b1
           || in_range 0xE1 0xEC b0 && is_cont b1
           || in_range 0xED 0xED b0 && in_range 0x80 0x9F b1
           || in_range 0xEE 0xEF b0 && is_cont b1) && is_cont b2)%bool
      then utf8_valid r2 else
      match r2 with
      | [] => false
      | b3 :: r3 =>
        if ((in_range 0xF0 0xF0 b0 && in_range 0x90 0xBF b1
             || in_range 0xF1 0xF3 b0 && is_cont b1
             || in_range 0xF4 0xF4 b0 && in_range 0x80 0x8F b1)
            && is_cont b2 && is_cont b3)%bool
        then utf8_valid r3 else false
      end
    end
  end
end.

(** [bs.decode("utf-8")]: [None] stands for [UnicodeDecodeError]. *)
Definition decode_utf8 (bs : bytes) : option string :=
if utf8_valid bs then Some (String.string_of_list_byte bs) else None.

(** ** [pathlib.Path] on POSIX *)

Module PosixPath.

Definition sep : ascii := "/"%char.

(** [posixpath.splitroot] without the (always empty) drive:
    the root and the rest. *)
Definition splitroot (p : string) : string * string :=
  match p with
  | String a p1 =>
      if Ascii.eqb a sep then
        match p1 with
        | String b p2 =>
            if Ascii.eqb b sep then
              match p2 with
              | String c _ =>
                  if Ascii.eqb c sep then ("/", p1) else ("//", p2)
              | EmptyString => ("//", p2)
              end
            else ("/", p1)
        | EmptyString => ("/", p1)
        end
      else ("", p)
  | EmptyString => ("", p)
  end.

Definition keep_part (x : string) : bool :=
  (Str.truthy x && negb (String.eqb x "."))%bool.

(** [PurePath._parse_path]: root and tail *)
Definition parse_path (path : string) : string * list string :=
  if negb (Str.truthy path) then ("", [])
  else
    let '(root, rel) := splitroot path in
    (root, filter (fun x => Is_true (keep_part x)) (Str.split sep rel)).

(** [posixpath.join(a, b)] *)
Definition join (a b : string) : string :=
  if Str.startswith b "/" then b
  else if (negb (Str.truthy a) || Str.endswith a "/")%bool then a +:+ b
  else a +:+ "/" +:+ b.

(** A path object holds the joined segments it was built from. *)
Record Path := mkPath { raw : string }.

(** [path / key] *)
Definition truediv (p : Path) (key : string) : Path :=
  mkPath (join (raw p) key).

Definition tail (p : Path) : list string := snd (parse_path (raw p)).
Definition root (p : Path) : string := fst (parse_path (raw p)).

(** [str(path)] *)
Definition str (p : Path) : string :=
  let s := root p +:+ Str.join "/" (tail p) in
  if Str.truthy s then s else ".".

(** [path.name] *)
Definition name (p : Path) : string := default "" (last (tail p)).

(** The suffix of a final component. *)
Definition suffix_of_name (nm : string) : string :=
  let i := Str.rfind "."%char nm in
  if ((0 <? i) && (i <? Str.len nm - 1))%bool then Str.drop (Z.to_nat i) nm
  else "".

(** [path.suffix] *)
Definition suffix (p : Path) : string := suffix_of_name (name p).

End PosixPath.

Import PosixPath.


(** ** Values of the script *)

(** One entry of a result list: a definition
    [{"type", "name", "start_line", "end_line"}] or the read failure
    [{"error": message}]. *)
Inductive record :=
| Def (def_type name : string) (start_line end_line : nat)
| Err (error : string).

(** The report: a [dict] from path strings to lists of entries. *)
Abbreviation Report := (gmap string (list record)).

(** ** Exceptions and effects *)

Inductive exn :=
| ImportError (module : string)
| OSError (msg : string)
| UnicodeDecodeError
| SystemExit (code : Z)
| OtherError (cls msg : string).

(** [OtherError cls msg] is an exception of a class that the script does
    not name, such as the [AttributeError] or [TypeError] of a call into
    tree-sitter.

    The classes caught by [except Exception] ([SystemExit] derives from
    [BaseException] only). *)
Definition is_Exception (e : exn) : bool :=
  match e with SystemExit _ => false | _ => true end.

(** [str(e)] *)
Definition exn_str (e : exn) : string :=
  match e with
  | ImportError module => "No module named '" +:+ module +:+ "'"
  | OSError msg => msg
  | UnicodeDecodeError => "'utf-8' codec can't decode bytes"
  | SystemExit _ => ""
  | OtherError _ msg => msg
  end.

Inductive event :=
| EImport (module : string)
| EOpen (path : string)
| EStdout (result : Report)
| EStderr (line : string).

(** A computation: the effects it performed, then an exception or a value. *)
Definition M (A : Type) : Type := list event * (exn + A).

Definition ret {A} (a : A) : M A := ([], inr a).

Definition bind {A B} (m : M A) (k : A -> M B) : M B :=
  match m with
  | (t, inl e) => (t, inl e)
  | (t, inr a) => let '(t', r) := k a in (t ++ t', r)
  end.

Definition raise {A} (e : exn) : M A := ([], inl e).

Definition tell (ev : event) : M unit := ([ev], inr tt).

(** [try: m  except ...: handler e] *)
Definition try_except {A} (m : M A) (handler : exn -> M A) : M A :=
  match m with
  | (t, inl e) => let '(t', r) := handler e in (t ++ t', r)
  | (t, inr a) => (t, inr a)
  end.

#[global] Instance M_ret : MRet M := @ret.
#[global] Instance M_bind : MBind M := fun A B k m => bind m k.

Definition trace {A} (m : M A) : list event := fst m.
Definition outcome {A} (m : M A) : exn + A := snd m.

(** Exit status of the interpreter for a finished run. *)
Definition exit_status {A} (m : M A) : Z :=
  match outcome m with
  | inr _ => 0
  | inl (SystemExit code) => code
  | inl _ => 1
  end.

(** ** tree-sitter values *)

(** A grammar, named by the support module whose [language()] made it. *)
Inductive Language := language (module : string).

(** [Parser()] followed by [set_language(lang)]. *)
Record Parser := Parser_for { parser_language : Language }.

(** The tree of [parser.parse(content)]: parsing is a function of the
    grammar and the bytes, so the tree is held as that pair. *)
Record Tree := mkTree { tree_language : Language; tree_text : bytes }.

Definition parse (parser : Parser) (content : bytes) : Tree :=
  mkTree (parser_language parser) content.

(** A syntax node: byte span and (row, column) points, all counted from 0. *)
Record Node := mkNode {
  start_byte : nat;
  end_byte : nat;
  start_point : nat * nat;
  end_point : nat * nat
}.

(** ** The environment of a run *)

Record World := mkWorld {
  (** [import module] succeeds *)
  importable : string -> bool;
  (** [module.language()]: the class and message of the exception it
      raises, if it raises *)
  ts_language_error : string -> option (string * string);
  (** [parser.set_language(lang)]: the class and message of the exception
      it raises, if it raises *)
  ts_set_language_error : Language -> option (string * string);
  (** [Path.exists()]: the message of the [OSError] that [os.stat] raised
      and [pathlib] did not ignore, or the answer *)
  fs_exists : string -> string + bool;
  (** [Path.is_file()], likewise *)
  fs_is_file : string -> string + bool;
  (** [open(path, "rb").read()]: the message of the exception, or the bytes *)
  fs_read : string -> string + bytes;
  (** [os.walk(top)]: the [(root, dirs, files)] triples *)
  os_walk : string -> list (string * list string * list string);
  (** [tree.language.query(source).captures(tree.root_node)] *)
  ts_captures : string -> Tree -> list (Node * string)
}.

(** ** The script *)

Definition EXT_TO_LANG : list (string * string) :=
  [ (".py", "python");
    (".js", "javascript");
    (".go", "go");
    (".c", "c");
    (".cpp", "cpp");
    (".h", "c");
    (".hpp", "cpp") ].

(** [d.get(key)] *)
Fixpoint dict_get (d : list (string * string)) (key : string) : option string :=
  match d with
  | [] => None
  | (k, v) :: d' => if String.eqb k key then Some v else dict_get d' key
  end.

(** iteration over a [dict]: its keys *)
Definition dict_keys (d : list (string * string)) : list string := map fst d.

Definition python_query : string :=
  "(function_definition name: (identifier) @func.name) @func.def (class_definition name: (identifier) @class.name) @class.def".

Definition javascript_query : string :=
  "(function_declaration name: (identifier) @func.name) @func.def (class_declaration name: (identifier) @class.name) @class.def".

Definition go_query : string :=
  "(function_declaration name: (identifier) @func.name) @func.def (type_declaration (type_spec name: (type_identifier) @class.name)) @class.def".

Section Script.

Variable W : World.

Definition import_module (module : string) : M unit :=
  tell (EImport module);;
  if importable W module then mret tt else raise (ImportError module).

(** [module.language()] *)
Definition call_language (module : string) : M Language :=
  match ts_language_error W module with
  | Some (cls, msg) => raise (OtherError cls msg)
  | None => mret (language module)
  end.

(** [parser.set_language(lang)] on the fresh [Parser()] *)
Definition set_language (lang : Language) : M Parser :=
  match ts_set_language_error W lang with
  | Some (cls, msg) => raise (OtherError cls msg)
  | None => mret (Parser_for lang)
  end.

(** The [try] block holds the import, the call of [language()] and the
    call of [set_language]; its only handler is [except ImportError]. *)
Definition get_parser (lang_name : string) : M (option Parser) :=
  try_except
    (lang ←
       (if String.eqb lang_name "python" then
          import_module "tree_sitter_python";;
          lang ← call_language "tree_sitter_python"; mret (Some lang)
        else if String.eqb lang_name "javascript" then
          import_module "tree_sitter_javascript";;
          lang ← call_language "tree_sitter_javascript"; mret (Some lang)
        else if String.eqb lang_name "go" then
          import_module "tree_sitter_go";;
          lang ← call_language "tree_sitter_go"; mret (Some lang)
        else if String.eqb lang_name "c" then
          import_module "tree_sitter_c";;
          lang ← call_language "tree_sitter_c"; mret (Some lang)
        else if String.eqb lang_name "cpp" then
          import_module "tree_sitter_cpp";;
          lang ← call_language "tree_sitter_cpp"; mret (Some lang)
        else mret None);
     match lang with
     | None => mret None
     | Some lang => parser ← set_language lang; mret (Some parser)
     end)
    (fun e => match e with
              | ImportError _ => mret None
              | _ => raise e
              end).

(** [open(file_path, "rb")] and [f.read()] *)
Definition read_bytes (file_path : Path) : M bytes :=
  tell (EOpen (str file_path));;
  match fs_read W (str file_path) with
  | inl msg => raise (OSError msg)
  | inr content => mret content
  end.

(** The query selected by the [if]/[elif] chain; [None] is the final
    [else] branch. *)
Definition select_query (lang_name : string) : option string :=
  if String.eqb lang_name "python" then Some python_query
  else if String.eqb lang_name "javascript" then Some javascript_query
  else if String.eqb lang_name "go" then Some go_query
  else None.

(** The entry appended for a capture whose tag ends with [.name]. *)
Definition definition_of (content : bytes) (node : Node) (tag : string) : M record :=
  let def_type := if Str.contains "func" tag then "function" else "class" in
  match decode_utf8 (slice content (start_byte node) (end_byte node)) with
  | None => raise UnicodeDecodeError
  | Some name =>
      mret (Def def_type name (fst (start_point node) + 1) (fst (end_point node) + 1))
  end.

(** The loop [for node, tag in captures]. *)
Fixpoint collect (content : bytes) (captures : list (Node * string))
    (definitions : list record) : M (list record) :=
  match captures with
  | [] => mret definitions
  | (node, tag) :: rest =>
      if Str.endswith tag ".name" then
        d ← definition_of content node tag;
        collect content rest (definitions ++ [d])
      else collect content rest definitions
  end.

Definition extract_definitions (file_path : Path) (lang_name : string)
    : M (list record) :=
  parser ← get_parser lang_name;
  match parser with
  | None => mret []
  | Some parser =>
      r ← try_except
            (content ← read_bytes file_path; mret (inr content))
            (fun e => if is_Exception e then mret (inl [Err (exn_str e)])
                      else raise e);
      match r with
      | inl early => mret early
      | inr content =>
          let tree := parse parser content in
          match select_query lang_name with
          | Some source =>
              collect content (ts_captures W source tree) []
          | None => mret []
          end
      end
  end.

(** The body of the inner loop of [scan_directory] for one file name. *)
Definition scan_file (root file : string) (structure : Report) : M Report :=
  let file_path := truediv (mkPath root) file in
  if existsb (fun ext => Str.endswith (str file_path) ext) (dict_keys EXT_TO_LANG) then
    let ext := suffix file_path in
    match dict_get EXT_TO_LANG ext with
    | Some lang =>
        if Str.truthy lang then
          defs ← extract_definitions file_path lang;
          match defs with
          | [] => mret structure
          | _ :: _ => mret (<[str file_path := defs]> structure)
          end
        else mret structure
    | None => mret structure
    end
  else mret structure.

Fixpoint scan_files (root : string) (files : list string) (structure : Report)
    : M Report :=
  match files with
  | [] => mret structure
  | file :: files' =>
      structure' ← scan_file root file structure;
      scan_files root files' structure'
  end.

Fixpoint scan_walk (entries : list (string * list string * list string))
    (structure : Report) : M Report :=
  match entries with
  | [] => mret structure
  | (root, _, files) :: entries' =>
      structure' ← scan_files root files structure;
      scan_walk entries' structure'
  end.

Definition scan_directory (path : Path) : M Report :=
  scan_walk (os_walk W (str path)) ∅.

(** [path.exists()] *)
Definition path_exists (path : Path) : M bool :=
  match fs_exists W (str path) with
  | inl msg => raise (OSError msg)
  | inr b => mret b
  end.

(** [path.is_file()] *)
Definition path_is_file (path : Path) : M bool :=
  match fs_is_file W (str path) with
  | inl msg => raise (OSError msg)
  | inr b => mret b
  end.

(** [main], with [arg] the positional argument read by [argparse]. *)
Definition main (arg : string) : M unit :=
  let target_path := mkPath arg in
  found ← path_exists target_path;
  if negb found then
    tell (EStderr ("Error: " +:+ str target_path +:+ " does not exist"));;
    raise (SystemExit 1)
  else
    is_file ← path_is_file target_path;
    if (is_file : bool) then
      let ext := suffix target_path in
      match dict_get EXT_TO_LANG ext with
      | Some lang =>
          if Str.truthy lang then
            defs ← extract_definitions target_path lang;
            tell (EStdout {[ str target_path := defs ]})
          else tell (EStderr ("Unsupported file extension: " +:+ ext))
      | None => tell (EStderr ("Unsupported file extension: " +:+ ext))
      end
    else
      result ← scan_directory target_path;
      tell (EStdout result).

(** The module body: the guarded import, then [main()]. *)
Definition script (arg : string) : M unit :=
  try_except
    (import_module "tree_sitter")
    (fun e => match e with
              | ImportError _ =>
                  tell (EStderr "Error: tree-sitter not installed");;
                  raise (SystemExit 1)
              | _ => raise e
              end);;
  main arg.

End Script.

(** ** A concrete environment

    A small project tree used to run the script:
<<
    a.py             def foo():\n    pass\n
    proj/a.py        the same two lines
    proj/.py         (empty, readable)
    proj/empty.js    (empty, readable)
    proj/main.go     package main\n
    proj/locked.py   not readable
    proj/locked.c    not readable
    proj/README.md
    proj/sub/        (empty directory)
>>
    Every grammar package is installed except [tree_sitter_go]. *)

Definition nl : string := String "010"%char "".

Definition a_py_text : string := "def foo():" +:+ nl +:+ "    pass" +:+ nl.

Definition a_py_source : bytes := String.list_byte_of_string a_py_text.

(** What tree-sitter's Python grammar and [python_query] capture in
    [a_py_source]: the [function_definition] node, bytes 0-19, from
    (0, 0) to (1, 8), and its name [foo], bytes 4-7 on row 0. *)
Definition a_py_captures : list (Node * string) :=
  [ (mkNode 0 19 (0, 0) (1, 8), "func.def");
    (mkNode 4 7 (0, 4) (0, 7), "func.name") ]%nat.

Definition demo_files : list (string * (string + bytes)) :=
  [ ("a.py", inr a_py_source);
    ("proj/a.py", inr a_py_source);
    ("proj/.py", inr []);
    ("proj/empty.js", inr []);
    ("proj/main.go", inr (String.list_byte_of_string ("package main" +:+ nl)));
    ("proj/locked.py", inl "[Errno 13] Permission denied: 'proj/locked.py'");
    ("proj/locked.c", inl "[Errno 13] Permission denied: 'proj/locked.c'");
    ("proj/README.md", inr (String.list_byte_of_string "notes")) ].

Fixpoint assoc {A} (l : list (string * A)) (key : string) : option A :=
  match l with
  | [] => None
  | (k, v) :: l' => if String.eqb k key then Some v else assoc l' key
  end.

Definition demo_world : World := {|
  importable := fun module => negb (String.eqb module "tree_sitter_go");
  ts_language_error := fun _ => None;
  ts_set_language_error := fun _ => None;
  fs_exists := fun p =>
    match assoc demo_files p with
    | Some _ => inr true
    | None => inr (String.eqb p "proj" || String.eqb p "proj/sub")%bool
    end;
  fs_is_file := fun p =>
    match assoc demo_files p with Some _ => inr true | None => inr false end;
  fs_read := fun p =>
    match assoc demo_files p with
    | Some r => r
    | None => inl ("[Errno 2] No such file or directory: '" +:+ p +:+ "'")
    end;
  os_walk := fun top =>
    if String.eqb top "proj" then
      [ ("proj", ["sub"],
         ["a.py"; ".py"; "empty.js"; "main.go"; "locked.py"; "locked.c"; "README.md"]);
        ("proj/sub", [], []) ]
    else [];
  ts_captures := fun source tree =>
    if (String.eqb source python_query
        && String.eqb (String.string_of_list_byte (tree_text tree)) a_py_text)%bool
    then a_py_captures else []
|}.

(** The same tree on a machine without the Python grammar package. *)
Definition bare_world : World := {|
  importable := fun module => String.eqb module "tree_sitter";
  ts_language_error := ts_language_error demo_world;
  ts_set_language_error := ts_set_language_error demo_world;
  fs_exists := fs_exists demo_world;
  fs_is_file := fs_is_file demo_world;
  fs_read := fs_read demo_world;
  os_walk := os_walk demo_world;
  ts_captures := ts_captures demo_world
|}.

(** The same tree with a tree-sitter release whose [Parser] has no
    [set_language] method, so that the call raises [AttributeError]; and
    with a file whose name is too long for [os.stat]. *)
Definition no_set_language : string :=
  "'tree_sitter.Parser' object has no attribute 'set_language'".

Definition long_name : string := "[Errno 36] File name too long".

Definition published_world : World := {|
  importable := fun _ => true;
  ts_language_error := fun _ => None;
  ts_set_language_error := fun _ => Some ("AttributeError", no_set_language);
  fs_exists := fun p =>
    if String.eqb p "too_long.py" then inl long_name else fs_exists demo_world p;
  fs_is_file := fs_is_file demo_world;
  fs_read := fs_read demo_world;
  os_walk := os_walk demo_world;
  ts_captures := ts_captures demo_world
|}.

(** A directory that holds no file of a supported language. *)
Definition docs_world : World := {|
  importable := fun _ => true;
  ts_language_error := fun _ => None;
  ts_set_language_error := fun _ => None;
  fs_exists := fun p =>
    inr (String.eqb p "docs" || String.eqb p "docs/README.md"
         || String.eqb p "docs/Makefile")%bool;
  fs_is_file := fun p =>
    inr (String.eqb p "docs/README.md" || String.eqb p "docs/Makefile")%bool;
  fs_read := fun _ => inr [];
  os_walk := fun top =>
    if String.eqb top "docs" then [("docs", [], ["README.md"; "Makefile"])]
    else [];
  ts_captures := fun _ _ => []
|}.

(** ** Auxiliary notions used in the statements *)

(** The support module that [get_parser] imports for a grammar name. *)
Definition grammar_module (lang_name : string) : option string :=
  if String.eqb lang_name "python" then Some "tree_sitter_python"
  else if String.eqb lang_name "javascript" then Some "tree_sitter_javascript"
  else if String.eqb lang_name "go" then Some "tree_sitter_go"
  else if String.eqb lang_name "c" then Some "tree_sitter_c"
  else if String.eqb lang_name "cpp" then Some "tree_sitter_cpp"
  else None.

(** The exception, if any, raised between the import of a support module
    and the return of [get_parser]: by [language()], or else by
    [set_language]. *)
Definition binding_error (W : World) (module : string) : option (string * string) :=
  match ts_language_error W module with
  | Some err => Some err
  | None => ts_set_language_error W (language module)
  end.

(** A file name as a directory listing gives it: one path component. *)
Fixpoint slash_free (s : string) : bool :=
  match s with
  | EmptyString => true
  | String a s' => (negb (Ascii.eqb a sep) && slash_free s')%bool
  end.

(** tree-sitter's span invariant: a node does not end before it starts. *)
Definition rows_ordered (W : World) : Prop :=
  forall source tree node tag,
    In (node, tag) (ts_captures W source tree) ->
    (fst (start_point node) <= fst (end_point node))%nat.

(** tree-sitter lexes identifiers from decoded code points, so the bytes of
    a captured name node are well-formed UTF-8. *)
Definition names_decodable (W : World) : Prop :=
  forall source tree node tag,
    In (node, tag) (ts_captures W source tree) ->
    Str.endswith tag ".name" = true ->
    utf8_valid (slice (tree_text tree) (start_byte node) (end_byte node)) = true.

(** The line numbers of a definition record count from 1 and are
    ordered; an error record carries none. *)
Definition line_numbers_ok (r : record) : Prop :=
  match r with
  | Def _ _ start_line end_line =>
      (1 <= start_line)%nat /\ (1 <= end_line)%nat /\ (start_line <= end_line)%nat
  | Err _ => True
  end.

(** What a walked file puts into the report: the key it is stored under
    and the non-empty list that extraction returned for it. *)
Definition contributes (W : World) (root file key : string)
    (defs : list record) : Prop :=
  let file_path := truediv (mkPath root) file in
  key = str file_path /\
  defs <> [] /\
  exists lang,
    dict_get EXT_TO_LANG (suffix file_path) = Some lang /\
    outcome (extract_definitions W file_path lang) = inr defs.

(** The report built so far only holds contributions of walked files. *)
Definition report_sound (W : World) (structure : Report) : Prop :=
  forall key defs, structure !! key = Some defs ->
    exists root file, contributes W root file key defs.

(** The record that the loop appends for a name capture: its type is read
    off the tag, its name encodes to the captured bytes, and both lines
    are rows of the captured node, counted from 1. *)
Definition record_for (content : bytes) (capture : Node * string)
    (r : record) : Prop :=
  exists name,
    r = Def (if Str.contains "func" (snd capture) then "function" else "class")
            name
            (fst (start_point (fst capture)) + 1)
            (fst (end_point (fst capture)) + 1) /\
    String.list_byte_of_string name
    = slice content (start_byte (fst capture)) (end_byte (fst capture)).

(** The exceptions that extraction lets through: those of binding the
    grammar to the parser, and the decoding error of a captured name. *)
Definition is_uncaught (e : exn) : bool :=
  match e with
  | UnicodeDecodeError | OtherError _ _ => true
  | ImportError _ | OSError _ | SystemExit _ => false
  end.

(** The effects that write to a standard stream. *)
Definition is_output (ev : event) : bool :=
  match ev with
  | EStdout _ | EStderr _ => true
  | EImport _ | EOpen _ => false
  end.

(** The captures that the loop of [extract_definitions] acts on. *)
Definition is_name_capture (capture : Node * string) : bool :=
  Str.endswith (snd capture) ".name".

(** * Properties *)


(** ** Strings *)

Lemma append_cons a s t : String a s +:+ t = String a (s +:+ t).
Proof. reflexivity. Qed.

Lemma append_nil_l s : "" +:+ s = s.
Proof. reflexivity. Qed.

Lemma append_assoc s t u : (s +:+ t) +:+ u = s +:+ t +:+ u.
Proof.
  induction s as [|a s IH]; [reflexivity|].
  rewrite !append_cons. by rewrite IH.
Qed.

Lemma append_truthy_r s t : Str.truthy t = true -> Str.truthy (s +:+ t) = true.
Proof. by destruct s. Qed.

Lemma endswith_nil suf : Str.endswith "" suf = String.eqb "" suf.
Proof. simpl. apply orb_false_r. Qed.

Lemma endswith_cons a s suf :
  Str.endswith (String a s) suf
  = (String.eqb (String a s) suf || Str.endswith s suf)%bool.
Proof. reflexivity. Qed.

Lemma endswith_append s suf : Str.endswith (s +:+ suf) suf = true.
Proof.
  induction s as [|a s IH].
  - rewrite append_nil_l. destruct suf.
    + reflexivity.
    + rewrite endswith_cons, String.eqb_refl. reflexivity.
  - rewrite append_cons, endswith_cons, IH. apply orb_true_r.
Qed.

Lemma endswith_inv s suf :
  Str.endswith s suf = true -> exists pre, s = pre +:+ suf.
Proof.
  induction s as [|a s IH]; intros H.
  - rewrite endswith_nil in H. apply String.eqb_eq in H. by exists "".
  - rewrite endswith_cons in H. apply orb_true_iff in H as [H|H].
    + apply String.eqb_eq in H. by exists "".
    + destruct (IH H) as [pre ->]. by exists (String a pre).
Qed.

Lemma split_nonempty c s : Str.split c s <> [].
Proof.
  destruct s as [|a s]; simpl; [done|].
  destruct (Ascii.eqb a c); [done|]. by destruct (Str.split c s).
Qed.

Lemma split_slash_free x : slash_free x = true -> Str.split sep x = [x].
Proof.
  induction x as [|a x IH]; simpl; [done|].
  intros [Ha Hx]%andb_true_iff. apply negb_true_iff in Ha. rewrite Ha.
  by rewrite (IH Hx).
Qed.

Lemma split_snoc s e :
  slash_free e = true ->
  Str.split sep (s +:+ "/" +:+ e) = Str.split sep s ++ [e].
Proof.
  intros He. induction s as [|a s IH].
  - rewrite append_nil_l, append_cons, append_nil_l. simpl.
    by rewrite (split_slash_free e He).
  - rewrite append_cons. simpl. rewrite IH.
    destruct (Ascii.eqb a sep); [done|].
    pose proof (split_nonempty sep s). by destruct (Str.split sep s).
Qed.

Lemma split_cons x s :
  slash_free x = true ->
  Str.split sep (x +:+ "/" +:+ s) = x :: Str.split sep s.
Proof.
  induction x as [|a x IH]; intros Hx.
  - by rewrite append_nil_l, append_cons, append_nil_l.
  - simpl in Hx. apply andb_true_iff in Hx as [Ha Hx]. apply negb_true_iff in Ha.
    rewrite append_cons. simpl. by rewrite Ha, (IH Hx).
Qed.

Lemma split_parts_free s : Forall (fun x => slash_free x = true) (Str.split sep s).
Proof.
  induction s as [|a s IH]; simpl; [by repeat constructor|].
  destruct (Ascii.eqb a sep) eqn:Ha; [by constructor|].
  pose proof (split_nonempty sep s).
  destruct (Str.split sep s) as [|x r]; [done|].
  inversion IH; subst. constructor; [|done]. simpl. by rewrite Ha.
Qed.

Lemma last_split_sep_cons s :
  last (Str.split sep (String sep s)) = last (Str.split sep s).
Proof.
  simpl. pose proof (split_nonempty sep s). by destruct (Str.split sep s).
Qed.

(** ** Paths *)

Lemma sep_eqb a : Ascii.eqb a sep = true -> a = sep.
Proof. apply Ascii.eqb_eq. Qed.

Lemma last_split_splitroot p :
  last (Str.split sep (snd (splitroot p))) = last (Str.split sep p).
Proof.
  destruct p as [|a p1]; [done|]. unfold splitroot.
  destruct (Ascii.eqb a sep) eqn:Ha; [|done].
  apply sep_eqb in Ha as ->.
  destruct p1 as [|b p2]; [done|].
  destruct (Ascii.eqb b sep) eqn:Hb; cbn [snd]; [|by rewrite last_split_sep_cons].
  apply sep_eqb in Hb as ->.
  destruct p2 as [|c p3]; cbn [snd]; [done|].
  destruct (Ascii.eqb c sep) eqn:Hc; cbn [snd].
  - by rewrite !last_split_sep_cons.
  - by rewrite !last_split_sep_cons.
Qed.

Lemma splitroot_root p :
  fst (splitroot p) = "" \/ fst (splitroot p) = "/" \/ fst (splitroot p) = "//".
Proof.
  unfold splitroot.
  repeat (match goal with
          | |- context [match ?s with EmptyString => _ | String _ _ => _ end] =>
              destruct s
          | |- context [if ?b then _ else _] => destruct b
          end; cbn [fst]); auto.
Qed.

Lemma last_filter_keep (l : list string) x :
  last l = Some x -> keep_part x = true ->
  last (filter (fun x => Is_true (keep_part x)) l) = Some x.
Proof.
  intros [l' ->]%last_Some Hx.
  rewrite filter_app, filter_cons_True by (by rewrite Hx).
  rewrite filter_nil. apply last_snoc.
Qed.

Lemma keep_part_truthy x : keep_part x = true -> Str.truthy x = true.
Proof. unfold keep_part. by intros [? _]%andb_true_iff. Qed.

(** The name of a path is the last component of its raw string, when that
    component is a proper name. *)
Lemma name_of_raw p x :
  last (Str.split sep p) = Some x -> keep_part x = true -> name (mkPath p) = x.
Proof.
  intros Hlast Hx. unfold name, tail, parse_path. cbn [raw].
  destruct p as [|a p]; [by simplify_eq/=|]. cbn [Str.truthy negb].
  pose proof (last_split_splitroot (String a p)) as Hs.
  destruct (splitroot (String a p)) as [rt rel]. cbn [snd] in *.
  rewrite Hlast in Hs. by rewrite (last_filter_keep _ _ Hs Hx).
Qed.

Lemma tail_kept p : Forall (fun x => keep_part x = true) (tail p).
Proof.
  unfold tail, parse_path. destruct (negb (Str.truthy (raw p))); [constructor|].
  destruct (splitroot (raw p)) as [rt rel]. cbn [snd].
  apply Forall_forall. intros x [Hx _]%list_elem_of_filter.
  by apply Is_true_true.
Qed.

Lemma tail_slash_free p : Forall (fun x => slash_free x = true) (tail p).
Proof.
  unfold tail, parse_path. destruct (negb (Str.truthy (raw p))); [constructor|].
  destruct (splitroot (raw p)) as [rt rel]. cbn [snd].
  apply Forall_forall. intros x [_ Hx]%list_elem_of_filter.
  by eapply Forall_forall in Hx; [|apply split_parts_free].
Qed.

Lemma root_cases p : root p = "" \/ root p = "/" \/ root p = "//".
Proof.
  unfold root, parse_path. destruct (negb (Str.truthy (raw p))); [by left|].
  pose proof (splitroot_root (raw p)). by destruct (splitroot (raw p)).
Qed.

Lemma startswith_slash_free e :
  slash_free e = true -> Str.startswith e "/" = false.
Proof.
  destruct e as [|a e]; [done|]. simpl.
  intros [Ha _]%andb_true_iff. apply negb_true_iff in Ha.
  unfold sep in Ha. by rewrite Ha.
Qed.

(** The raw string of [Path(root) / file] ends with the component [file]. *)
Lemma join_last a e :
  slash_free e = true -> last (Str.split sep (join a e)) = Some e.
Proof.
  intros He. unfold join. rewrite (startswith_slash_free e He).
  destruct a as [|c a].
  - cbn [Str.truthy negb orb]. rewrite append_nil_l.
    by rewrite (split_slash_free e He).
  - cbn [Str.truthy negb orb].
    destruct (Str.endswith (String c a) "/") eqn:Hend.
    + apply endswith_inv in Hend as [pre ->].
      rewrite append_assoc, (split_snoc pre e He). apply last_snoc.
    + rewrite (split_snoc _ e He). apply last_snoc.
Qed.

Lemma name_truediv rt e :
  slash_free e = true -> keep_part e = true ->
  name (truediv (mkPath rt) e) = e.
Proof.
  intros He Hk. apply name_of_raw; [|done]. by apply join_last.
Qed.

Lemma join_snoc_suffix (l : list string) e :
  exists pre, Str.join "/" (l ++ [e]) = pre +:+ e.
Proof.
  induction l as [|x l [pre IH]]; [by exists ""|].
  exists (x +:+ "/" +:+ pre). cbn [app Str.join].
  destruct (l ++ [e]) eqn:Hl; [by destruct l|].
  by rewrite IH, !append_assoc.
Qed.

(** [str(p)] ends with [p.name]. *)
Lemma str_endswith_name p x :
  last (tail p) = Some x -> Str.truthy x = true ->
  Str.endswith (str p) x = true.
Proof.
  intros [l Hl]%last_Some Hx. unfold str. rewrite Hl.
  destruct (join_snoc_suffix l x) as [pre ->].
  rewrite <- append_assoc.
  rewrite (append_truthy_r _ x Hx). apply endswith_append.
Qed.

Lemma split_join_free (l : list string) :
  l <> [] -> Forall (fun x => slash_free x = true) l ->
  Str.split sep (Str.join "/" l) = l.
Proof.
  induction l as [|x l IH]; [done|]. intros _ [Hx Hl]%Forall_cons.
  destruct l as [|y l]; [by apply split_slash_free|].
  change (Str.join "/" (x :: y :: l)) with (x +:+ "/" +:+ Str.join "/" (y :: l)).
  rewrite (split_cons _ _ Hx). f_equal. by apply IH.
Qed.

(** Parsing the string of a path again gives the same name, so the suffix
    of a report key is the suffix of the path it was made from. *)
Lemma name_str p : name (mkPath (str p)) = name p.
Proof.
  destruct (last (tail p)) as [x|] eqn:Hlast.
  - pose proof (tail_kept p) as Hk. pose proof (tail_slash_free p) as Hf.
    assert (x ∈ tail p) as Hin by by apply last_Some_elem_of.
    assert (keep_part x = true) as Hkx by by eapply Forall_forall in Hk.
    transitivity x; [|by unfold name; rewrite Hlast].
    apply name_of_raw; [|done].
    unfold str.
    assert (Str.truthy (root p +:+ Str.join "/" (tail p)) = true) as ->.
    { apply last_Some in Hlast as [l Hl]. rewrite Hl.
      destruct (join_snoc_suffix l x) as [pre ->].
      rewrite <- append_assoc. apply append_truthy_r. by apply keep_part_truthy. }
    assert (last (Str.split sep (Str.join "/" (tail p))) = Some x) as Hj.
    { rewrite split_join_free; [done| |done]. intros E. by rewrite E in Hlast. }
    destruct (root_cases p) as [-> | [-> | ->]].
    + by rewrite append_nil_l.
    + change ("/" +:+ ?s) with (String sep s). by rewrite last_split_sep_cons.
    + change ("//" +:+ ?s) with (String sep (String sep s)).
      by rewrite !last_split_sep_cons.
  - apply last_None in Hlast. unfold name at 2. unfold str. rewrite Hlast.
    cbn [Str.join last default].
    by destruct (root_cases p) as [-> | [-> | ->]].
Qed.

Lemma suffix_str p : suffix (mkPath (str p)) = suffix p.
Proof. unfold suffix. by rewrite name_str. Qed.

(** ** Computations *)

Lemma bind_inr {A B} (m : M A) (k : A -> M B) a :
  outcome m = inr a ->
  (x ← m; k x) = (trace m ++ trace (k a), outcome (k a)).
Proof.
  unfold mbind, M_bind, bind, outcome, trace.
  destruct m as [t [e|a']]; cbn [fst snd]; intros; simplify_eq.
  by destruct (k a).
Qed.

Lemma bind_inl {A B} (m : M A) (k : A -> M B) e :
  outcome m = inl e -> (x ← m; k x) = (trace m, inl e).
Proof.
  unfold mbind, M_bind, bind, outcome, trace.
  destruct m as [t [e'|a]]; cbn [fst snd]; intros; by simplify_eq.
Qed.

Lemma outcome_bind_inv {A B} (m : M A) (k : A -> M B) b :
  outcome (x ← m; k x) = inr b ->
  exists a, outcome m = inr a /\ outcome (k a) = inr b.
Proof.
  destruct (outcome m) as [e|a] eqn:Hm.
  - by rewrite (bind_inl _ _ _ Hm).
  - rewrite (bind_inr _ _ _ Hm). eauto.
Qed.

Lemma trace_bind_Forall {A B} (Q : event -> Prop) (m : M A) (k : A -> M B) :
  Forall Q (trace m) -> (forall a, outcome m = inr a -> Forall Q (trace (k a))) ->
  Forall Q (trace (x ← m; k x)).
Proof.
  intros Hm Hk. destruct (outcome m) as [e|a] eqn:Ho.
  - by rewrite (bind_inl _ _ _ Ho).
  - rewrite (bind_inr _ _ _ Ho). cbn [trace fst]. apply Forall_app; auto.
Qed.

Section ScriptFacts.

Variable W : World.

(** One branch of [get_parser]: the import, then the two calls that bind
    the grammar. *)
Ltac grammar_branch m :=
  destruct (importable W m);
  [destruct (ts_language_error W m) as [[? ?]|];
   [|cbn; destruct (ts_set_language_error W (language m)) as [[? ?]|]]|].

Lemma get_parser_eq lang_name :
  get_parser W lang_name =
  match grammar_module lang_name with
  | Some module =>
      ([EImport module],
       if importable W module then
         match binding_error W module with
         | Some (cls, msg) => inl (OtherError cls msg)
         | None => inr (Some (Parser_for (language module)))
         end
       else inr None)
  | None => ([], inr None)
  end.
Proof.
  unfold get_parser, grammar_module, import_module, call_language, set_language,
    binding_error.
  destruct (String.eqb lang_name "python"); [by grammar_branch "tree_sitter_python"|].
  destruct (String.eqb lang_name "javascript");
    [by grammar_branch "tree_sitter_javascript"|].
  destruct (String.eqb lang_name "go"); [by grammar_branch "tree_sitter_go"|].
  destruct (String.eqb lang_name "c"); [by grammar_branch "tree_sitter_c"|].
  destruct (String.eqb lang_name "cpp"); [by grammar_branch "tree_sitter_cpp"|].
  reflexivity.
Qed.

Lemma collect_trace content captures definitions :
  trace (collect content captures definitions) = [].
Proof.
  revert definitions.
  induction captures as [|[node tag] rest IH]; intros definitions; [done|].
  cbn [collect]. destruct (Str.endswith tag ".name"); [|apply IH].
  unfold definition_of. destruct (decode_utf8 _) as [name|]; [|done].
  erewrite bind_inr by reflexivity. cbn [trace fst app]. apply IH.
Qed.

Lemma collect_eq content captures definitions :
  collect content captures definitions
  = ([], outcome (collect content captures definitions)).
Proof.
  rewrite <- (collect_trace content captures definitions).
  by destruct (collect content captures definitions).
Qed.

Lemma extract_definitions_eq file_path lang_name :
  extract_definitions W file_path lang_name =
  match grammar_module lang_name with
  | None => ([], inr [])
  | Some module =>
      if importable W module then
        match binding_error W module with
        | Some (cls, msg) => ([EImport module], inl (OtherError cls msg))
        | None =>
            match fs_read W (str file_path) with
            | inl msg => ([EImport module; EOpen (str file_path)], inr [Err msg])
            | inr content =>
                ([EImport module; EOpen (str file_path)],
                 match select_query lang_name with
                 | Some source =>
                     outcome (collect content
                       (ts_captures W source (mkTree (language module) content)) [])
                 | None => inr []
                 end)
            end
        end
      else ([EImport module], inr [])
  end.
Proof.
  unfold extract_definitions. rewrite get_parser_eq.
  destruct (grammar_module lang_name) as [module|]; [|done].
  destruct (importable W module); [|done].
  destruct (binding_error W module) as [[cls msg]|]; [done|].
  unfold read_bytes. destruct (fs_read W (str file_path)) as [msg|content]; [done|].
  destruct (select_query lang_name) as [source|]; [|done].
  cbn. unfold parse. cbn [parser_language].
  rewrite (collect_eq content). done.
Qed.

End ScriptFacts.

Lemma get_parser_Some W lang_name parser :
  outcome (get_parser W lang_name) = inr (Some parser) ->
  exists module,
    grammar_module lang_name = Some module /\ importable W module = true /\
    binding_error W module = None.
Proof.
  rewrite get_parser_eq. destruct (grammar_module lang_name) as [module|]; [|done].
  cbn. destruct (importable W module) eqn:Himp; [|done].
  destruct (binding_error W module) as [[cls msg]|] eqn:Hbind; [done|eauto].
Qed.

Lemma get_parser_None W lang_name :
  (forall module, grammar_module lang_name = Some module -> importable W module = false) ->
  outcome (get_parser W lang_name) = inr None.
Proof.
  intros H. rewrite get_parser_eq.
  destruct (grammar_module lang_name) as [module|]; [|done].
  by rewrite (H module eq_refl).
Qed.

(** The values of [EXT_TO_LANG] are non-empty names of grammars that
    [get_parser] knows. *)
Lemma dict_get_lang ext lang :
  dict_get EXT_TO_LANG ext = Some lang ->
  Str.truthy lang = true /\ is_Some (grammar_module lang).
Proof.
  unfold EXT_TO_LANG. cbn [dict_get].
  repeat (destruct (String.eqb _ ext); [intros [= <-]; by split|]).
  done.
Qed.

Lemma dict_get_keys ext :
  is_Some (dict_get EXT_TO_LANG ext) <-> In ext (dict_keys EXT_TO_LANG).
Proof.
  unfold EXT_TO_LANG, dict_keys. cbn [dict_get map fst In]. split.
  - repeat (match goal with
            | |- context [String.eqb ?k ext] =>
                destruct (String.eqb_spec k ext) as [<-|_]; [tauto|]
            end).
    by intros [? ?].
  - intros H.
    repeat (destruct H as [<-|H]; [by rewrite ?String.eqb_refl; eauto|]).
    done.
Qed.

(** The lines of an emitted definition are those of the captured name
    node. *)
Lemma definition_of_lines content node tag r :
  outcome (definition_of content node tag) = inr r ->
  exists def_type name,
    r = Def def_type name (fst (start_point node) + 1) (fst (end_point node) + 1).
Proof.
  unfold definition_of. destruct (decode_utf8 _) as [name|]; [|done].
  intros [= <-]. eauto.
Qed.

Lemma collect_lines content captures definitions defs :
  (forall node tag, In (node, tag) captures ->
     (fst (start_point node) <= fst (end_point node))%nat) ->
  Forall line_numbers_ok definitions ->
  outcome (collect content captures definitions) = inr defs ->
  Forall line_numbers_ok defs.
Proof.
  revert definitions.
  induction captures as [|[node tag] rest IH]; intros definitions Hcap Hacc.
  - by intros [= <-].
  - cbn [collect]. destruct (Str.endswith tag ".name").
    + intros (r & Hr & Hrest)%outcome_bind_inv.
      apply definition_of_lines in Hr as (ty & nm & ->).
      eapply IH; [| |exact Hrest].
      * intros node' tag' Hin. apply (Hcap node' tag'). by right.
      * apply Forall_app; split; [done|]. constructor; [|constructor].
        pose proof (Hcap node tag (or_introl eq_refl)). cbn. lia.
    + apply IH; [|done]. intros node' tag' Hin. apply (Hcap node' tag'). by right.
Qed.

Lemma demo_rows_ordered : rows_ordered demo_world.
Proof.
  intros source tree node tag. cbn [ts_captures demo_world].
  destruct (_ && _)%bool; [|done].
  intros [[= <- <-]|[[= <- <-]|[]]]; cbn; lia.
Qed.

Lemma demo_names_decodable : names_decodable demo_world.
Proof.
  intros source tree node tag. cbn [ts_captures demo_world].
  destruct (_ && _)%bool eqn:Hsel; [|done].
  apply andb_true_iff in Hsel as [_ Htext]. apply String.eqb_eq in Htext.
  intros [[= <- <-]|[[= <- <-]|[]]]; [done|]. intros _.
  assert (tree_text tree = a_py_source) as ->.
  { unfold a_py_source. rewrite <- Htext.
    by rewrite String.list_byte_of_string_of_list_byte. }
  reflexivity.
Qed.

(** ** Properties from the specification *)

(** C1 (the code differs).  For the two-line Python file
    [def foo():] / [    pass] the definition spans lines 1 to 2, but the
    script reports [end_line] 1: both line numbers are read from the
    captured name node [foo], not from the [@func.def] node that the query
    also captures and the loop ignores.  The single record is
    [{type: function, name: foo, start_line: 1, end_line: 1}]. *)
Theorem C1_a_py_reports_the_line_of_the_name :
  extract_definitions demo_world (mkPath "a.py") "python"
    = ([EImport "tree_sitter_python"; EOpen "a.py"],
       inr [Def "function" "foo" 1 1])
  /\ outcome (extract_definitions demo_world (mkPath "a.py") "python")
     <> inr [Def "function" "foo" 1 2]
  /\ script demo_world "a.py"
     = ([EImport "tree_sitter"; EImport "tree_sitter_python"; EOpen "a.py";
         EStdout {[ "a.py" := [Def "function" "foo" 1 1] ]}],
        inr tt).
Proof.
  split; [by vm_compute|]. split; [by vm_compute|]. by vm_compute.
Qed.

(** C2.  Every definition record that [extract_definitions] returns, for
    any grammar name and any file contents, has [start_line >= 1],
    [end_line >= 1] and [end_line >= start_line], given that tree-sitter's
    nodes do not end on an earlier row than they start. *)
Theorem C2_line_numbers_one_based_and_ordered
    W file_path lang_name defs def_type name start_line end_line :
  rows_ordered W ->
  outcome (extract_definitions W file_path lang_name) = inr defs ->
  In (Def def_type name start_line end_line) defs ->
  (1 <= start_line /\ 1 <= end_line /\ start_line <= end_line)%nat.
Proof.
  intros Hrows Hout Hin.
  assert (Forall line_numbers_ok defs) as Hall.
  { rewrite extract_definitions_eq in Hout.
    destruct (grammar_module lang_name) as [module|];
      [|injection Hout as <-; constructor].
    destruct (importable W module); [|injection Hout as <-; constructor].
    destruct (binding_error W module) as [[cls err]|]; [done|].
    destruct (fs_read W (str file_path)) as [msg|content].
    { injection Hout as <-. by repeat constructor. }
    cbn [outcome snd] in Hout.
    destruct (select_query lang_name) as [source|];
      [|injection Hout as <-; constructor].
    eapply collect_lines; [|constructor|exact Hout].
    intros node tag. apply Hrows. }
  eapply Forall_forall in Hall; [|by apply list_elem_of_In]. exact Hall.
Qed.

Lemma C2_line_numbers_witness :
  rows_ordered demo_world /\ (1 <= 1 /\ 1 <= 1 /\ 1 <= 1)%nat.
Proof.
  split; [exact demo_rows_ordered|].
  apply (C2_line_numbers_one_based_and_ordered demo_world (mkPath "a.py")
           "python" [Def "function" "foo" 1 1] "function" "foo" 1 1).
  - exact demo_rows_ordered.
  - vm_compute. reflexivity.
  - left. reflexivity.
Defined.

(** C3, as stated, fails.  With the C grammar package installed and bound
    to the parser, an unreadable [.c] file makes [extract_definitions]
    return an error record, because the file is opened before the grammar
    is looked at; and where [set_language] raises, the call returns no
    list at all. *)
Lemma C3_c_file_result_is_not_always_empty :
  outcome (extract_definitions demo_world (mkPath "proj/locked.c") "c")
    = inr [Err "[Errno 13] Permission denied: 'proj/locked.c'"] /\
  outcome (extract_definitions published_world (mkPath "proj/locked.c") "c")
    = inl (OtherError "AttributeError" no_set_language) /\
  ~ (forall (W : World) (file_path : Path) (ext lang : string),
       In ext [".c"; ".h"; ".cpp"; ".hpp"] ->
       dict_get EXT_TO_LANG ext = Some lang ->
       outcome (extract_definitions W file_path lang) = inr []).
Proof.
  split; [by vm_compute|]. split; [by vm_compute|].
  intros H.
  specialize (H published_world (mkPath "proj/locked.c") ".c" "c").
  assert (In ".c" [".c"; ".h"; ".cpp"; ".hpp"]) as Hin by (left; reflexivity).
  specialize (H Hin eq_refl). vm_compute in H. discriminate H.
Qed.

(** C3 (amended).  For a file whose extension is [.c], [.h], [.cpp] or
    [.hpp], [extract_definitions] returns the empty list when the grammar
    package cannot be imported (the file is then not opened) and, whatever
    the contents, when [get_parser] returns a parser and the file can be
    read; when [get_parser] returns a parser and the file cannot be read,
    it returns the single record [{error: message}]. *)
Theorem C3_c_family_empty_unless_read_fails W file_path ext :
  In ext [".c"; ".h"; ".cpp"; ".hpp"] ->
  exists lang module,
    dict_get EXT_TO_LANG ext = Some lang /\
    grammar_module lang = Some module /\
    (importable W module = false ->
       extract_definitions W file_path lang = ([EImport module], inr [])) /\
    (forall parser content,
       outcome (get_parser W lang) = inr (Some parser) ->
       fs_read W (str file_path) = inr content ->
       outcome (extract_definitions W file_path lang) = inr []) /\
    (forall parser msg,
       outcome (get_parser W lang) = inr (Some parser) ->
       fs_read W (str file_path) = inl msg ->
       outcome (extract_definitions W file_path lang) = inr [Err msg]).
Proof.
  intros Hext.
  assert (exists lang module,
            dict_get EXT_TO_LANG ext = Some lang /\
            grammar_module lang = Some module /\
            select_query lang = None) as (lang & module & Hget & Hmod & Hq).
  { destruct Hext as [<-|[<-|[<-|[<-|[]]]]].
    - by exists "c", "tree_sitter_c".
    - by exists "c", "tree_sitter_c".
    - by exists "cpp", "tree_sitter_cpp".
    - by exists "cpp", "tree_sitter_cpp". }
  exists lang, module. split; [done|]. split; [done|].
  rewrite extract_definitions_eq, Hmod, Hq.
  split; [by intros ->|]. split.
  - intros parser content (m & Hm & Himp & Hbind)%get_parser_Some Hread.
    rewrite Hmod in Hm. injection Hm as <-. by rewrite Himp, Hbind, Hread.
  - intros parser msg (m & Hm & Himp & Hbind)%get_parser_Some Hread.
    rewrite Hmod in Hm. injection Hm as <-. by rewrite Himp, Hbind, Hread.
Qed.

Lemma C3_c_family_witness :
  exists lang module,
    dict_get EXT_TO_LANG ".c" = Some lang /\
    grammar_module lang = Some module /\
    (importable demo_world module = false ->
       extract_definitions demo_world (mkPath "proj/locked.c") lang
       = ([EImport module], inr [])) /\
    (forall parser content,
       outcome (get_parser demo_world lang) = inr (Some parser) ->
       fs_read demo_world (str (mkPath "proj/locked.c")) = inr content ->
       outcome (extract_definitions demo_world (mkPath "proj/locked.c") lang) = inr []) /\
    (forall parser msg,
       outcome (get_parser demo_world lang) = inr (Some parser) ->
       fs_read demo_world (str (mkPath "proj/locked.c")) = inl msg ->
       outcome (extract_definitions demo_world (mkPath "proj/locked.c") lang)
       = inr [Err msg]).
Proof.
  apply (C3_c_family_empty_unless_read_fails demo_world (mkPath "proj/locked.c") ".c").
  left. reflexivity.
Defined.

(** An exception of [get_parser] leaves [extract_definitions] unchanged,
    before the file is opened. *)
Lemma extract_definitions_get_parser_raises W file_path lang e :
  outcome (get_parser W lang) = inl e ->
  extract_definitions W file_path lang = (trace (get_parser W lang), inl e).
Proof. intros H. unfold extract_definitions. by rewrite (bind_inl _ _ _ H). Qed.

Lemma main_file W arg lang :
  fs_exists W (str (mkPath arg)) = inr true ->
  fs_is_file W (str (mkPath arg)) = inr true ->
  dict_get EXT_TO_LANG (suffix (mkPath arg)) = Some lang ->
  main W arg =
  (defs ← extract_definitions W (mkPath arg) lang;
   tell (EStdout {[ str (mkPath arg) := defs ]})).
Proof.
  intros Hex Hfile Hget. unfold main, path_exists, path_is_file.
  rewrite Hex, Hfile, Hget. cbn.
  destruct (dict_get_lang _ _ Hget) as [-> _].
  by destruct (extract_definitions W (mkPath arg) lang) as [t [e|defs]].
Qed.

(** The guard around the read does its part: in single-file mode, for an
    existing file with a supported extension for which [get_parser]
    returns a parser and whose bytes cannot be read, extraction returns the
    one record [{error: message}] and [main] prints the report that maps
    the path to that record. *)
Lemma unreadable_file_after_get_parser W arg lang parser msg :
  fs_exists W (str (mkPath arg)) = inr true ->
  fs_is_file W (str (mkPath arg)) = inr true ->
  dict_get EXT_TO_LANG (suffix (mkPath arg)) = Some lang ->
  outcome (get_parser W lang) = inr (Some parser) ->
  fs_read W (str (mkPath arg)) = inl msg ->
  outcome (extract_definitions W (mkPath arg) lang) = inr [Err msg] /\
  exists module,
    main W arg
    = ([EImport module; EOpen (str (mkPath arg));
        EStdout {[ str (mkPath arg) := [Err msg] ]}],
       inr tt).
Proof.
  intros Hex Hfile Hget Hparser Hread.
  apply get_parser_Some in Hparser as (module & Hmod & Himp & Hbind).
  assert (extract_definitions W (mkPath arg) lang
          = ([EImport module; EOpen (str (mkPath arg))], inr [Err msg])) as Hext.
  { by rewrite extract_definitions_eq, Hmod, Himp, Hbind, Hread. }
  split; [by rewrite Hext|]. exists module.
  rewrite (main_file W arg lang Hex Hfile Hget).
  erewrite bind_inr by (rewrite Hext; reflexivity).
  by rewrite Hext.
Qed.

(** C4 (the code differs).  The file [proj/locked.py] exists, has a
    supported extension, its grammar package imports, and its bytes cannot
    be read.  With a tree-sitter release whose [Parser] has no
    [set_language], the call on line 47 raises [AttributeError]; the [try]
    around it handles [ImportError] only, so the exception leaves
    [get_parser], [extract_definitions] and [main]: the file is never
    opened, no error record is made and no report is printed. *)
Theorem C4_unreadable_file_aborts_in_get_parser :
  fs_exists published_world (str (mkPath "proj/locked.py")) = inr true /\
  fs_is_file published_world (str (mkPath "proj/locked.py")) = inr true /\
  dict_get EXT_TO_LANG (suffix (mkPath "proj/locked.py")) = Some "python" /\
  importable published_world "tree_sitter_python" = true /\
  fs_read published_world (str (mkPath "proj/locked.py"))
    = inl "[Errno 13] Permission denied: 'proj/locked.py'" /\
  get_parser published_world "python"
    = ([EImport "tree_sitter_python"],
       inl (OtherError "AttributeError" no_set_language)) /\
  extract_definitions published_world (mkPath "proj/locked.py") "python"
    = ([EImport "tree_sitter_python"],
       inl (OtherError "AttributeError" no_set_language)) /\
  script published_world "proj/locked.py"
    = ([EImport "tree_sitter"; EImport "tree_sitter_python"],
       inl (OtherError "AttributeError" no_set_language)) /\
  exit_status (script published_world "proj/locked.py") = 1.
Proof. repeat split; by vm_compute. Qed.

Lemma scan_file_cases W root file structure :
  let file_path := truediv (mkPath root) file in
  scan_file W root file structure = ([], inr structure) \/
  exists lang,
    dict_get EXT_TO_LANG (suffix file_path) = Some lang /\
    scan_file W root file structure =
    (defs ← extract_definitions W file_path lang;
     match defs with
     | [] => mret structure
     | _ :: _ => mret (<[str file_path := defs]> structure)
     end).
Proof.
  intros file_path. unfold scan_file. fold file_path.
  destruct (existsb _ _); [|by left].
  destruct (dict_get EXT_TO_LANG (suffix file_path)) as [lang|] eqn:Hget; [|by left].
  destruct (dict_get_lang _ _ Hget) as [-> _]. right. by exists lang.
Qed.

(** What one iteration of the walker can do to the report. *)
Lemma scan_file_outcome W root file structure structure' :
  let file_path := truediv (mkPath root) file in
  outcome (scan_file W root file structure) = inr structure' ->
  structure' = structure \/
  exists lang defs,
    dict_get EXT_TO_LANG (suffix file_path) = Some lang /\
    outcome (extract_definitions W file_path lang) = inr defs /\
    defs <> [] /\
    structure' = <[str file_path := defs]> structure.
Proof.
  intros file_path.
  destruct (scan_file_cases W root file structure) as [->|(lang & Hget & ->)].
  - intros [= <-]. by left.
  - fold file_path. intros (defs & Hdefs & Hk)%outcome_bind_inv.
    destruct defs as [|d defs]; injection Hk as <-; [by left|].
    right. by exists lang, (d :: defs).
Qed.

(** An invariant of the report kept by every iteration holds of the
    result of the whole walk. *)
Lemma scan_files_invariant W (P : Report -> Prop) root files structure structure' :
  (forall file st st', P st -> outcome (scan_file W root file st) = inr st' -> P st') ->
  P structure ->
  outcome (scan_files W root files structure) = inr structure' ->
  P structure'.
Proof.
  intros Hstep. revert structure.
  induction files as [|file files IH]; intros structure HP.
  - by intros [= <-].
  - cbn [scan_files]. intros (st & Hst & Hrest)%outcome_bind_inv.
    eapply IH; [|exact Hrest]. eauto.
Qed.

Lemma scan_walk_invariant W (P : Report -> Prop) entries structure structure' :
  (forall root file st st', P st -> outcome (scan_file W root file st) = inr st' -> P st') ->
  P structure ->
  outcome (scan_walk W entries structure) = inr structure' ->
  P structure'.
Proof.
  intros Hstep. revert structure.
  induction entries as [|[[root dirs] files] entries IH]; intros structure HP.
  - by intros [= <-].
  - cbn [scan_walk]. intros (st & Hst & Hrest)%outcome_bind_inv.
    eapply IH; [|exact Hrest].
    eapply scan_files_invariant; [|exact HP|exact Hst]. intros; eauto.
Qed.

(** C5.  Every key of the report built by [scan_directory] maps to a
    non-empty list: a file whose extraction gave no record has no key. *)
Theorem C5_directory_report_has_no_empty_entry W path report key defs :
  outcome (scan_directory W path) = inr report ->
  report !! key = Some defs ->
  defs <> [].
Proof.
  intros Hscan. revert key defs.
  change (map_Forall (fun _ defs => defs <> []) report).
  eapply scan_walk_invariant; [|apply map_Forall_empty|exact Hscan].
  intros root file st st' HP Hstep.
  apply scan_file_outcome in Hstep as [->|(lang & defs & _ & _ & Hne & ->)]; [done|].
  by apply map_Forall_insert_2.
Qed.

Lemma C5_directory_report_witness :
  let report : Report :=
    <["proj/locked.c" := [Err "[Errno 13] Permission denied: 'proj/locked.c'"]]>
    (<["proj/locked.py" := [Err "[Errno 13] Permission denied: 'proj/locked.py'"]]>
    (<["proj/a.py" := [Def "function" "foo" 1 1]]> ∅)) in
  outcome (scan_directory demo_world (mkPath "proj")) = inr report /\
  report !! "proj/a.py" = Some [Def "function" "foo" 1 1] /\
  report !! "proj/empty.js" = None /\
  [Def "function" "foo" 1 1] <> [].
Proof.
  intros report.
  assert (outcome (scan_directory demo_world (mkPath "proj")) = inr report) as Hscan
    by (vm_compute; reflexivity).
  assert (report !! "proj/a.py" = Some [Def "function" "foo" 1 1]) as Hlook
    by (vm_compute; reflexivity).
  split; [exact Hscan|]. split; [exact Hlook|]. split; [vm_compute; reflexivity|].
  exact (C5_directory_report_has_no_empty_entry demo_world (mkPath "proj")
           report "proj/a.py" [Def "function" "foo" 1 1] Hscan Hlook).
Defined.

(** C8.  When the support package of a grammar name cannot be imported,
    [get_parser] returns [None] and [extract_definitions] returns the
    empty list; in directory mode the iteration for such a file leaves the
    report as it was and the walk goes on with the remaining files. *)
Theorem C8_missing_grammar_package_skips_the_file W lang :
  (forall module, grammar_module lang = Some module -> importable W module = false) ->
  outcome (get_parser W lang) = inr None /\
  (forall file_path, outcome (extract_definitions W file_path lang) = inr []) /\
  (forall root file structure,
     dict_get EXT_TO_LANG (suffix (truediv (mkPath root) file)) = Some lang ->
     outcome (scan_file W root file structure) = inr structure /\
     forall files,
       outcome (scan_files W root (file :: files) structure)
       = outcome (scan_files W root files structure)).
Proof.
  intros Hmissing.
  assert (forall file_path, outcome (extract_definitions W file_path lang) = inr [])
    as Hext.
  { intros file_path. rewrite extract_definitions_eq.
    destruct (grammar_module lang) as [module|]; [|done].
    by rewrite (Hmissing module eq_refl). }
  split; [by apply get_parser_None|]. split; [exact Hext|].
  intros root file structure Hget.
  assert (outcome (scan_file W root file structure) = inr structure) as Hskip.
  { destruct (scan_file_cases W root file structure) as [->|(lang' & Hget' & ->)];
      [done|].
    rewrite Hget in Hget'. injection Hget' as <-.
    erewrite bind_inr by apply Hext. done. }
  split; [exact Hskip|]. intros files. cbn [scan_files].
  by erewrite bind_inr by exact Hskip.
Qed.

Lemma C8_missing_grammar_witness :
  outcome (get_parser demo_world "go") = inr None /\
  (forall file_path, outcome (extract_definitions demo_world file_path "go") = inr []) /\
  (forall root file structure,
     dict_get EXT_TO_LANG (suffix (truediv (mkPath root) file)) = Some "go" ->
     outcome (scan_file demo_world root file structure) = inr structure /\
     forall files,
       outcome (scan_files demo_world root (file :: files) structure)
       = outcome (scan_files demo_world root files structure)).
Proof.
  apply (C8_missing_grammar_package_skips_the_file demo_world "go").
  intros module [= <-]. reflexivity.
Defined.

(** C9.  When the grammar package of the file's grammar cannot be
    imported, [extract_definitions] returns the empty list having only
    attempted the import: it does not open the file, so an unreadable file
    gives no error record either. *)
Theorem C9_no_file_read_when_grammar_package_missing W file_path lang module :
  grammar_module lang = Some module ->
  importable W module = false ->
  extract_definitions W file_path lang = ([EImport module], inr []) /\
  (forall p, ~ In (EOpen p) (trace (extract_definitions W file_path lang))) /\
  (forall defs msg,
     outcome (extract_definitions W file_path lang) = inr defs ->
     ~ In (Err msg) defs).
Proof.
  intros Hmod Himp.
  assert (extract_definitions W file_path lang = ([EImport module], inr [])) as ->.
  { by rewrite extract_definitions_eq, Hmod, Himp. }
  split; [done|]. split.
  - intros p [Hp|[]]. discriminate Hp.
  - intros defs msg [= <-] [].
Qed.

Lemma C9_no_file_read_witness :
  fs_read bare_world (str (mkPath "proj/locked.py"))
    = inl "[Errno 13] Permission denied: 'proj/locked.py'" /\
  extract_definitions bare_world (mkPath "proj/locked.py") "python"
    = ([EImport "tree_sitter_python"], inr []) /\
  (forall p, ~ In (EOpen p)
     (trace (extract_definitions bare_world (mkPath "proj/locked.py") "python"))) /\
  (forall defs msg,
     outcome (extract_definitions bare_world (mkPath "proj/locked.py") "python")
       = inr defs ->
     ~ In (Err msg) defs).
Proof.
  split; [reflexivity|].
  apply (C9_no_file_read_when_grammar_package_missing bare_world
           (mkPath "proj/locked.py") "python" "tree_sitter_python").
  - reflexivity.
  - reflexivity.
Defined.

(** ** Runs that do not raise *)

Lemma collect_total content captures definitions :
  (forall node tag, In (node, tag) captures ->
     Str.endswith tag ".name" = true ->
     utf8_valid (slice content (start_byte node) (end_byte node)) = true) ->
  exists defs, outcome (collect content captures definitions) = inr defs.
Proof.
  revert definitions.
  induction captures as [|[node tag] rest IH]; intros definitions Hdec.
  - by exists definitions.
  - cbn [collect].
    assert (forall node' tag', In (node', tag') rest ->
              Str.endswith tag' ".name" = true ->
              utf8_valid (slice content (start_byte node') (end_byte node')) = true)
      as Hrest by (intros node' tag' Hin; apply (Hdec node' tag'); by right).
    destruct (Str.endswith tag ".name") eqn:Htag; [|by apply IH].
    pose proof (Hdec node tag (or_introl eq_refl) Htag) as Hvalid.
    unfold definition_of, decode_utf8. rewrite Hvalid.
    erewrite bind_inr by reflexivity. cbn [outcome snd]. by apply IH.
Qed.

Lemma extract_definitions_total W file_path lang_name :
  names_decodable W ->
  (forall module, grammar_module lang_name = Some module ->
     binding_error W module = None) ->
  exists defs, outcome (extract_definitions W file_path lang_name) = inr defs.
Proof.
  intros Hdec Hbind. rewrite extract_definitions_eq.
  destruct (grammar_module lang_name) as [module|]; [|by eexists].
  destruct (importable W module); [|by eexists].
  rewrite (Hbind module eq_refl).
  destruct (fs_read W (str file_path)) as [msg|content]; [by eexists|].
  cbn [outcome snd].
  destruct (select_query lang_name) as [source|]; [|by eexists].
  apply collect_total. intros node tag Hin Htag.
  exact (Hdec source (mkTree (language module) content) node tag Hin Htag).
Qed.

Lemma extract_definitions_trace W file_path lang_name result :
  ~ In (EStdout result) (trace (extract_definitions W file_path lang_name)).
Proof.
  rewrite extract_definitions_eq.
  destruct (grammar_module lang_name) as [module|]; [|by intros []].
  destruct (importable W module); [|by intros [|[]]].
  destruct (binding_error W module) as [[cls err]|]; [by intros [|[]]|].
  destruct (fs_read W (str file_path)); by intros [|[|[]]].
Qed.

Lemma ret_bind {A B} (a : A) (k : A -> M B) : (x ← mret a; k x) = k a.
Proof. unfold mbind, M_bind, bind, mret, M_ret, ret. by destruct (k a). Qed.

(** [main], branch by branch. *)
Lemma main_eq W arg :
  main W arg =
  match fs_exists W (str (mkPath arg)) with
  | inl msg => ([], inl (OSError msg))
  | inr false =>
      ([EStderr ("Error: " +:+ str (mkPath arg) +:+ " does not exist")],
       inl (SystemExit 1))
  | inr true =>
      match fs_is_file W (str (mkPath arg)) with
      | inl msg => ([], inl (OSError msg))
      | inr true =>
          match dict_get EXT_TO_LANG (suffix (mkPath arg)) with
          | Some lang =>
              defs ← extract_definitions W (mkPath arg) lang;
              tell (EStdout {[ str (mkPath arg) := defs ]})
          | None =>
              ([EStderr ("Unsupported file extension: " +:+ suffix (mkPath arg))],
               inr tt)
          end
      | inr false =>
          result ← scan_directory W (mkPath arg);
          tell (EStdout result)
      end
  end.
Proof.
  unfold main, path_exists, path_is_file.
  destruct (fs_exists W (str (mkPath arg))) as [msg|[|]]; [done| |done].
  rewrite ret_bind. cbn [negb].
  destruct (fs_is_file W (str (mkPath arg))) as [msg|[|]]; [done| |].
  - rewrite ret_bind.
    destruct (dict_get EXT_TO_LANG (suffix (mkPath arg))) as [lang|] eqn:Hget;
      [|done].
    by destruct (dict_get_lang _ _ Hget) as [-> _].
  - by rewrite ret_bind.
Qed.

Lemma script_eq W arg :
  script W arg =
  if importable W "tree_sitter"
  then (EImport "tree_sitter" :: trace (main W arg), outcome (main W arg))
  else ([EImport "tree_sitter"; EStderr "Error: tree-sitter not installed"],
        inl (SystemExit 1)).
Proof.
  unfold script, import_module.
  destruct (importable W "tree_sitter"); [|done].
  cbn. by destruct (main W arg).
Qed.

(** ** The exceptions of a run *)

Lemma bind_raises {A B} (P : exn -> Prop) (m : M A) (k : A -> M B) e :
  (forall e', outcome m = inl e' -> P e') ->
  (forall a e', outcome (k a) = inl e' -> P e') ->
  outcome (x ← m; k x) = inl e -> P e.
Proof.
  intros Hm Hk. destruct (outcome m) as [e'|a] eqn:Hout.
  - rewrite (bind_inl _ _ _ Hout). intros [= <-]. by apply Hm.
  - rewrite (bind_inr _ _ _ Hout). apply Hk.
Qed.

Lemma collect_raises content captures definitions e :
  outcome (collect content captures definitions) = inl e -> e = UnicodeDecodeError.
Proof.
  revert definitions e.
  induction captures as [|[node tag] rest IH]; intros definitions e; [done|].
  cbn [collect]. destruct (Str.endswith tag ".name"); [|apply IH].
  apply (bind_raises (fun e => e = UnicodeDecodeError)).
  - intros e'. unfold definition_of. destruct (decode_utf8 _); [done|].
    by intros [= <-].
  - intros r e'. apply IH.
Qed.

(** What leaves [extract_definitions] is the exception of binding the
    grammar or the decoding error: never the failed import, never the
    failed read. *)
Lemma extract_raises W file_path lang e :
  outcome (extract_definitions W file_path lang) = inl e -> is_uncaught e = true.
Proof.
  rewrite extract_definitions_eq.
  destruct (grammar_module lang) as [module|]; [|done].
  destruct (importable W module); [|done].
  destruct (binding_error W module) as [[cls err]|]; [by intros [= <-]|].
  destruct (fs_read W (str file_path)) as [msg|content]; [done|].
  cbn [outcome snd]. destruct (select_query lang) as [source|]; [|done].
  by intros ->%collect_raises.
Qed.




(** C6.  For an existing file with a supported extension, every report
    that [main] prints has exactly one key, the string of the queried
    path; and whenever extraction returns a list, empty or not, [main]
    prints the report mapping that key to the list and ends normally. *)
Theorem C6_single_file_report_has_exactly_the_queried_key W arg lang :
  fs_exists W (str (mkPath arg)) = inr true ->
  fs_is_file W (str (mkPath arg)) = inr true ->
  dict_get EXT_TO_LANG (suffix (mkPath arg)) = Some lang ->
  (forall result : Report,
     In (EStdout result) (trace (main W arg)) ->
     dom result = {[ str (mkPath arg) ]}) /\
  (forall defs,
     outcome (extract_definitions W (mkPath arg) lang) = inr defs ->
     main W arg
     = (trace (extract_definitions W (mkPath arg) lang)
          ++ [EStdout {[ str (mkPath arg) := defs ]}],
        inr tt)).
Proof.
  intros Hex Hfile Hget. rewrite (main_file W arg lang Hex Hfile Hget).
  split.
  - intros result.
    destruct (outcome (extract_definitions W (mkPath arg) lang)) as [e|defs] eqn:Hout.
    + rewrite (bind_inl _ _ _ Hout). cbn [trace fst].
      intros Hin. by apply extract_definitions_trace in Hin.
    + rewrite (bind_inr _ _ _ Hout). cbn [trace fst tell].
      intros [Hin|[[= <-]|[]]]%in_app_or.
      * by apply extract_definitions_trace in Hin.
      * apply dom_singleton_L.
  - intros defs Hout. by rewrite (bind_inr _ _ _ Hout).
Qed.

Lemma C6_single_file_report_witness :
  (forall result : Report,
     In (EStdout result) (trace (main demo_world "proj/empty.js")) ->
     dom result = {[ str (mkPath "proj/empty.js") ]}) /\
  (forall defs,
     outcome (extract_definitions demo_world (mkPath "proj/empty.js") "javascript")
       = inr defs ->
     main demo_world "proj/empty.js"
     = (trace (extract_definitions demo_world (mkPath "proj/empty.js") "javascript")
          ++ [EStdout {[ str (mkPath "proj/empty.js") := defs ]}],
        inr tt)).
Proof.
  apply (C6_single_file_report_has_exactly_the_queried_key demo_world
           "proj/empty.js" "javascript").
  - reflexivity.
  - reflexivity.
  - reflexivity.
Defined.




(** ** Files named like an extension *)

Lemma last_tail_of_raw p x :
  last (Str.split sep p) = Some x -> keep_part x = true ->
  last (tail (mkPath p)) = Some x.
Proof.
  intros Hlast Hx. unfold tail, parse_path. cbn [raw].
  destruct p as [|a p]; [by simplify_eq/=|]. cbn [Str.truthy negb].
  pose proof (last_split_splitroot (String a p)) as Hs.
  destruct (splitroot (String a p)) as [rt rel]. cbn [snd] in *.
  rewrite Hlast in Hs. by apply last_filter_keep.
Qed.

Lemma extension_key_facts ext :
  In ext (dict_keys EXT_TO_LANG) ->
  slash_free ext = true /\ keep_part ext = true /\ suffix_of_name ext = "".
Proof.
  unfold EXT_TO_LANG, dict_keys. cbn [map fst In].
  intros H. repeat (destruct H as [<-|H]; [by vm_compute|]). done.
Qed.

(** Every key of the directory report, read back as a path, has a suffix
    that is a key of [EXT_TO_LANG]. *)
Lemma scan_directory_keys W path report key :
  outcome (scan_directory W path) = inr report ->
  is_Some (report !! key) ->
  In (suffix (mkPath key)) (dict_keys EXT_TO_LANG).
Proof.
  intros Hscan. revert key.
  change ((fun r : Report => forall key, is_Some (r !! key) ->
             In (suffix (mkPath key)) (dict_keys EXT_TO_LANG)) report).
  eapply scan_walk_invariant; [| |exact Hscan]; cbn beta.
  - intros root file st st' HP Hstep key.
    apply scan_file_outcome in Hstep as [->|(lang & defs & Hget & _ & _ & ->)];
      [apply HP|].
    destruct (decide (str (truediv (mkPath root) file) = key)) as [<-|Hne].
    + intros _. rewrite suffix_str. apply dict_get_keys. by rewrite Hget.
    + rewrite lookup_insert_ne by done. apply HP.
  - intros key. rewrite lookup_empty. by intros [? ?].
Qed.

(** C10.  In directory mode a file whose whole name is one of the
    supported extensions (such as [.py]) passes the [endswith] filter, but
    its path suffix is empty and maps to no grammar: the iteration does
    nothing for it and its path is not a key of the report.  An iteration
    either does nothing or extracts a file whose suffix is a key of
    [EXT_TO_LANG], and every key of the report has such a suffix. *)
Theorem C10_file_named_like_an_extension_is_never_extracted W root ext :
  In ext (dict_keys EXT_TO_LANG) ->
  let file_path := truediv (mkPath root) ext in
  existsb (fun e => Str.endswith (str file_path) e) (dict_keys EXT_TO_LANG) = true /\
  suffix file_path = "" /\
  dict_get EXT_TO_LANG (suffix file_path) = None /\
  (forall structure, scan_file W root ext structure = ([], inr structure)) /\
  (forall top report,
     outcome (scan_directory W top) = inr report ->
     report !! str file_path = None) /\
  (forall top report key,
     outcome (scan_directory W top) = inr report ->
     is_Some (report !! key) ->
     In (suffix (mkPath key)) (dict_keys EXT_TO_LANG)) /\
  (forall root' file structure,
     scan_file W root' file structure = ([], inr structure) \/
     exists lang,
       dict_get EXT_TO_LANG (suffix (truediv (mkPath root') file)) = Some lang /\
       scan_file W root' file structure =
       (defs ← extract_definitions W (truediv (mkPath root') file) lang;
        match defs with
        | [] => mret structure
        | _ :: _ => mret (<[str (truediv (mkPath root') file) := defs]> structure)
        end)).
Proof.
  intros Hext file_path.
  destruct (extension_key_facts ext Hext) as (Hfree & Hkeep & Hsuf).
  assert (last (tail file_path) = Some ext) as Hlast.
  { apply last_tail_of_raw; [|done]. by apply join_last. }
  assert (suffix file_path = "") as Hsuffix.
  { unfold suffix, name. by rewrite Hlast. }
  assert (existsb (fun e => Str.endswith (str file_path) e) (dict_keys EXT_TO_LANG)
          = true) as Hfilter.
  { apply existsb_exists. exists ext. split; [done|].
    apply str_endswith_name; [done|]. by apply keep_part_truthy. }
  assert (dict_get EXT_TO_LANG (suffix file_path) = None) as Hget
    by by rewrite Hsuffix.
  split; [done|]. split; [done|]. split; [done|]. split; [|split; [|split]].
  - intros structure. unfold scan_file. fold file_path. by rewrite Hfilter, Hget.
  - intros top report Hscan.
    destruct (report !! str file_path) as [defs|] eqn:Hlook; [|done].
    pose proof (scan_directory_keys W top report (str file_path) Hscan) as Hkey.
    rewrite Hlook, suffix_str, Hsuffix in Hkey.
    specialize (Hkey (mk_is_Some _ _ eq_refl)).
    apply dict_get_keys in Hkey as [? Hkey]. discriminate Hkey.
  - intros top report key. apply scan_directory_keys.
  - intros root' file structure. apply scan_file_cases.
Qed.

Lemma C10_hidden_py_witness :
  let file_path := truediv (mkPath "proj") ".py" in
  existsb (fun e => Str.endswith (str file_path) e) (dict_keys EXT_TO_LANG) = true /\
  suffix file_path = "" /\
  dict_get EXT_TO_LANG (suffix file_path) = None /\
  (forall structure, scan_file demo_world "proj" ".py" structure = ([], inr structure)) /\
  (forall top report,
     outcome (scan_directory demo_world top) = inr report ->
     report !! str file_path = None) /\
  (forall top report key,
     outcome (scan_directory demo_world top) = inr report ->
     is_Some (report !! key) ->
     In (suffix (mkPath key)) (dict_keys EXT_TO_LANG)) /\
  (forall root' file structure,
     scan_file demo_world root' file structure = ([], inr structure) \/
     exists lang,
       dict_get EXT_TO_LANG (suffix (truediv (mkPath root') file)) = Some lang /\
       scan_file demo_world root' file structure =
       (defs ← extract_definitions demo_world (truediv (mkPath root') file) lang;
        match defs with
        | [] => mret structure
        | _ :: _ => mret (<[str (truediv (mkPath root') file) := defs]> structure)
        end)).
Proof.
  apply (C10_file_named_like_an_extension_is_never_extracted demo_world "proj" ".py").
  left. reflexivity.
Defined.

(** ** Further facts about the extractor *)

(** For every grammar with a query, a file in which the query captures one
    function definition and its name gives exactly one record; its type is
    [function], its name is the text of the name node, and both of its
    line numbers are rows of the name node, whatever the span of the
    definition node is. *)
Lemma single_function_record
    W file_path lang module source content def_node name_node f :
  grammar_module lang = Some module ->
  importable W module = true ->
  binding_error W module = None ->
  fs_read W (str file_path) = inr content ->
  select_query lang = Some source ->
  ts_captures W source (mkTree (language module) content)
    = [(def_node, "func.def"); (name_node, "func.name")] ->
  decode_utf8 (slice content (start_byte name_node) (end_byte name_node)) = Some f ->
  outcome (extract_definitions W file_path lang)
  = inr [Def "function" f (fst (start_point name_node) + 1)
                          (fst (end_point name_node) + 1)].
Proof.
  intros Hmod Himp Hbind Hread Hq Hcap Hname.
  rewrite extract_definitions_eq, Hmod, Himp, Hbind, Hread, Hq, Hcap.
  cbn [outcome snd collect].
  change (Str.endswith "func.def" ".name") with false.
  change (Str.endswith "func.name" ".name") with true.
  cbn iota. unfold definition_of. rewrite Hname.
  change (Str.contains "func" "func.name") with true. reflexivity.
Qed.

(** ** Evaluation on the concrete environment *)

Example suffix_a_py : suffix (mkPath "src/a.py") = ".py".
Proof. reflexivity. Qed.

Example suffix_tar_gz : suffix (truediv (mkPath "/x") "a.tar.gz") = ".gz".
Proof. reflexivity. Qed.

Example suffix_trailing_dot : suffix (mkPath "a.") = "".
Proof. reflexivity. Qed.

Example str_of_dot_join : str (truediv (mkPath ".") "a.py") = "a.py".
Proof. reflexivity. Qed.

Example str_normalises :
  str (truediv (mkPath "//x///y/./z/") "a.tar.gz") = "//x/y/z/a.tar.gz".
Proof. reflexivity. Qed.

Example decode_rejects_latin1 :
  decode_utf8 [Byte.x63; Byte.x61; Byte.x66; Byte.xe9] = None.
Proof. reflexivity. Qed.

Example decode_accepts_two_byte :
  decode_utf8 [Byte.x63; Byte.xc3; Byte.xa9]
  = Some (String.string_of_list_byte [Byte.x63; Byte.xc3; Byte.xa9]).
Proof. reflexivity. Qed.

Example demo_scan_directory :
  scan_directory demo_world (mkPath "proj")
  = ([EImport "tree_sitter_python"; EOpen "proj/a.py";
      EImport "tree_sitter_javascript"; EOpen "proj/empty.js";
      EImport "tree_sitter_go";
      EImport "tree_sitter_python"; EOpen "proj/locked.py";
      EImport "tree_sitter_c"; EOpen "proj/locked.c"],
     inr (<["proj/locked.c" := [Err "[Errno 13] Permission denied: 'proj/locked.c'"]]>
          (<["proj/locked.py" := [Err "[Errno 13] Permission denied: 'proj/locked.py'"]]>
          (<["proj/a.py" := [Def "function" "foo" 1 1]]> ∅)))).
Proof. vm_compute. reflexivity. Qed.

Example demo_missing_path :
  script demo_world "nowhere"
  = ([EImport "tree_sitter"; EStderr "Error: nowhere does not exist"],
     inl (SystemExit 1)).
Proof. vm_compute. reflexivity. Qed.

(** ** The walker: which files are extracted *)

Lemma endswith_refl s : Str.endswith s s = true.
Proof. destruct s; [done|]. by rewrite endswith_cons, String.eqb_refl. Qed.

Lemma endswith_empty s : Str.endswith s "" = true.
Proof.
  induction s as [|a s IH]; [done|]. rewrite endswith_cons, IH. apply orb_true_r.
Qed.

Lemma endswith_drop i s : Str.endswith s (Str.drop i s) = true.
Proof.
  revert s. induction i as [|i IH]; intros s.
  - destruct s; apply endswith_refl.
  - destruct s as [|a s]; [done|]. cbn [Str.drop].
    rewrite endswith_cons, IH. apply orb_true_r.
Qed.

Lemma endswith_trans a b c :
  Str.endswith a b = true -> Str.endswith b c = true -> Str.endswith a c = true.
Proof.
  intros [p ->]%endswith_inv [q ->]%endswith_inv.
  rewrite <- append_assoc. apply endswith_append.
Qed.

Lemma suffix_of_name_endswith nm : Str.endswith nm (suffix_of_name nm) = true.
Proof.
  unfold suffix_of_name. destruct (_ && _)%bool.
  - apply endswith_drop.
  - apply endswith_empty.
Qed.

(** A path whose suffix is a key of [EXT_TO_LANG] always passes the
    [endswith] test that precedes the lookup. *)
Lemma supported_suffix_passes_filter p :
  In (suffix p) (dict_keys EXT_TO_LANG) ->
  existsb (fun ext => Str.endswith (str p) ext) (dict_keys EXT_TO_LANG) = true.
Proof.
  intros Hin. apply existsb_exists. exists (suffix p). split; [done|].
  destruct (extension_key_facts _ Hin) as (_ & Hkeep%keep_part_truthy & _).
  unfold suffix, name in *.
  destruct (last (tail p)) as [x|] eqn:Hlast; [|done]. cbn [default] in *.
  assert (Str.truthy x = true) as Hx by by destruct x.
  eapply endswith_trans; [by apply str_endswith_name|].
  apply suffix_of_name_endswith.
Qed.

Lemma scan_file_eq W root file structure :
  scan_file W root file structure =
  match dict_get EXT_TO_LANG (suffix (truediv (mkPath root) file)) with
  | Some lang =>
      defs ← extract_definitions W (truediv (mkPath root) file) lang;
      match defs with
      | [] => mret structure
      | _ :: _ => mret (<[str (truediv (mkPath root) file) := defs]> structure)
      end
  | None => ([], inr structure)
  end.
Proof.
  unfold scan_file.
  destruct (dict_get EXT_TO_LANG (suffix (truediv (mkPath root) file)))
    as [lang|] eqn:Hget.
  - rewrite supported_suffix_passes_filter
      by (apply dict_get_keys; by rewrite Hget).
    by destruct (dict_get_lang _ _ Hget) as [-> _].
  - by destruct (existsb _ _).
Qed.

(** X1.  The walker extracts a file exactly when its path suffix is a key
    of [EXT_TO_LANG]: the [endswith] test on the whole path string that
    comes first never rejects such a file, so it does not change which
    files are extracted.  A file with another suffix leaves the report
    unchanged and causes no effect. *)
Theorem X1_walker_extracts_exactly_the_supported_suffixes W root file structure :
  scan_file W root file structure =
  match dict_get EXT_TO_LANG (suffix (truediv (mkPath root) file)) with
  | Some lang =>
      defs ← extract_definitions W (truediv (mkPath root) file) lang;
      match defs with
      | [] => mret structure
      | _ :: _ => mret (<[str (truediv (mkPath root) file) := defs]> structure)
      end
  | None => ([], inr structure)
  end.
Proof. apply scan_file_eq. Qed.

(** Extraction looks at a path only through its string. *)
Lemma extract_definitions_str W p p' lang :
  str p = str p' ->
  extract_definitions W p lang = extract_definitions W p' lang.
Proof. intros H. by rewrite !extract_definitions_eq, H. Qed.

Lemma suffix_of_str p p' : str p = str p' -> suffix p = suffix p'.
Proof. intros H. by rewrite <- (suffix_str p), H, suffix_str. Qed.

(** Two walked files stored under the same key contribute the same list. *)
Lemma contributes_functional W root file root' file' key defs defs' :
  contributes W root file key defs ->
  contributes W root' file' key defs' ->
  defs = defs'.
Proof.
  intros (-> & _ & lang & Hget & Hout) (Hkey & _ & lang' & Hget' & Hout').
  rewrite <- (suffix_of_str _ _ Hkey), Hget in Hget'. injection Hget' as <-.
  rewrite <- (extract_definitions_str W _ _ lang Hkey), Hout in Hout'.
  by injection Hout'.
Qed.

(** ** The directory report *)

(** One iteration: the report afterwards holds what it held before and
    what the file contributes. *)
Lemma scan_file_lookup W root file st st1 :
  report_sound W st ->
  outcome (scan_file W root file st) = inr st1 ->
  report_sound W st1 /\
  forall key defs,
    st1 !! key = Some defs <->
    st !! key = Some defs \/ contributes W root file key defs.
Proof.
  intros Hsound. rewrite scan_file_eq.
  set (p := truediv (mkPath root) file).
  assert (forall key defs, contributes W root file key defs ->
            exists lang, dict_get EXT_TO_LANG (suffix p) = Some lang /\
                         outcome (extract_definitions W p lang) = inr defs /\
                         key = str p /\ defs <> []) as Hc.
  { intros key defs (-> & Hne & lang & Hget & Hout). by exists lang. }
  destruct (dict_get EXT_TO_LANG (suffix p)) as [lang|] eqn:Hget.
  - intros (d & Hout & Hk)%outcome_bind_inv.
    destruct d as [|r d].
    + injection Hk as <-. split; [done|]. intros key defs. split; [by left|].
      intros [H|H]; [done|].
      apply Hc in H as (lang' & [= <-] & Hout' & _ & Hne).
      rewrite Hout in Hout'. by injection Hout' as <-.
    + injection Hk as <-.
      assert (contributes W root file (str p) (r :: d)) as Hcontrib.
      { split; [done|]. split; [done|]. by exists lang. }
      split.
      * intros key defs.
        destruct (decide (str p = key)) as [<-|Hne].
        -- rewrite lookup_insert_eq. intros [= <-]. by exists root, file.
        -- rewrite lookup_insert_ne by done. apply Hsound.
      * intros key defs.
        destruct (decide (str p = key)) as [<-|Hne].
        -- rewrite lookup_insert_eq. split.
           ++ intros [= <-]. by right.
           ++ intros [H|H]; f_equal.
              ** apply Hsound in H as (root' & file' & H).
                 by eapply contributes_functional.
              ** by eapply contributes_functional.
        -- rewrite lookup_insert_ne by done. split; [by left|].
           intros [H|H]; [done|]. by destruct H as [-> _].
  - intros [= <-]. split; [done|]. intros key defs. split; [by left|].
    intros [H|H]; [done|]. by apply Hc in H as (lang' & [=] & _).
Qed.

Lemma scan_files_lookup W root files st st' :
  report_sound W st ->
  outcome (scan_files W root files st) = inr st' ->
  report_sound W st' /\
  forall key defs,
    st' !! key = Some defs <->
    st !! key = Some defs \/
    exists file, In file files /\ contributes W root file key defs.
Proof.
  revert st. induction files as [|file files IH]; intros st Hsound.
  - intros [= <-]. split; [done|]. intros key defs. split; [by left|].
    by intros [H|(file & [] & _)].
  - cbn [scan_files]. intros (st1 & Hstep & Hrest)%outcome_bind_inv.
    destruct (scan_file_lookup W root file st st1 Hsound Hstep) as [Hsound1 H1].
    destruct (IH st1 Hsound1 Hrest) as [Hsound' H'].
    split; [done|]. intros key defs. rewrite H', H1. split.
    + intros [[H|H]|(f & Hin & H)]; [by left|right..].
      * exists file. split; [by left|done].
      * exists f. split; [by right|done].
    + intros [H|(f & [<-|Hin] & H)]; [by left; left|by left; right|].
      right. by exists f.
Qed.

Lemma scan_walk_lookup W entries st st' :
  report_sound W st ->
  outcome (scan_walk W entries st) = inr st' ->
  report_sound W st' /\
  forall key defs,
    st' !! key = Some defs <->
    st !! key = Some defs \/
    exists root dirs files file,
      In (root, dirs, files) entries /\ In file files /\
      contributes W root file key defs.
Proof.
  revert st. induction entries as [|[[root dirs] files] entries IH]; intros st Hsound.
  - intros [= <-]. split; [done|]. intros key defs. split; [by left|].
    by intros [H|(? & ? & ? & ? & [] & _)].
  - cbn [scan_walk]. intros (st1 & Hstep & Hrest)%outcome_bind_inv.
    destruct (scan_files_lookup W root files st st1 Hsound Hstep) as [Hsound1 H1].
    destruct (IH st1 Hsound1 Hrest) as [Hsound' H'].
    split; [done|]. intros key defs. rewrite H', H1. split.
    + intros [[H|(f & Hin & H)]|(r & d & fs & f & Hin & Hf & H)]; [by left|right..].
      * exists root, dirs, files, f. split; [by left|done].
      * exists r, d, fs, f. split; [by right|done].
    + intros [Hst|(r & d & fs & f & Hin & Hf & Hc)]; [by left; left|].
      destruct Hin as [Heq|Hin].
      * injection Heq as <- <- <-. left; right. by exists f.
      * right. by exists r, d, fs, f.
Qed.

Lemma scan_directory_lookup W top report key defs :
  outcome (scan_directory W top) = inr report ->
  (report !! key = Some defs <->
   exists root dirs files file,
     In (root, dirs, files) (os_walk W (str top)) /\ In file files /\
     contributes W root file key defs).
Proof.
  intros Hscan.
  assert (report_sound W ∅) as Hempty by (intros k d; by rewrite lookup_empty).
  destruct (scan_walk_lookup W _ _ _ Hempty Hscan) as [_ H].
  rewrite H, lookup_empty. split; [by intros [?|?]|by right].
Qed.

(** X2.  The directory report is exactly what the walked files contribute:
    a key maps to a list if and only if some file of the walk has that
    path string, a suffix in [EXT_TO_LANG], and a non-empty extraction
    result equal to that list. *)
Theorem X2_directory_report_is_the_contributions W top report key defs :
  outcome (scan_directory W top) = inr report ->
  (report !! key = Some defs <->
   exists root dirs files file,
     In (root, dirs, files) (os_walk W (str top)) /\ In file files /\
     contributes W root file key defs).
Proof. apply scan_directory_lookup. Qed.

Lemma X2_directory_report_witness :
  let report : Report :=
    <["proj/locked.c" := [Err "[Errno 13] Permission denied: 'proj/locked.c'"]]>
    (<["proj/locked.py" := [Err "[Errno 13] Permission denied: 'proj/locked.py'"]]>
    (<["proj/a.py" := [Def "function" "foo" 1 1]]> ∅)) in
  report !! "proj/a.py" = Some [Def "function" "foo" 1 1] <->
  exists root dirs files file,
    In (root, dirs, files) (os_walk demo_world (str (mkPath "proj"))) /\
    In file files /\
    contributes demo_world root file "proj/a.py" [Def "function" "foo" 1 1].
Proof.
  intros report.
  apply (X2_directory_report_is_the_contributions demo_world (mkPath "proj")).
  vm_compute. reflexivity.
Defined.







(** ** Report keys as arguments *)

Lemma filter_all_kept (l : list string) :
  Forall (fun x => keep_part x = true) l ->
  filter (fun x => Is_true (keep_part x)) l = l.
Proof.
  induction 1 as [|x l Hx _ IH]; [done|].
  rewrite filter_cons_True by (by rewrite Hx). by rewrite IH.
Qed.

Lemma join_head x (t : list string) :
  keep_part x = true -> slash_free x = true ->
  exists c rest, Str.join "/" (x :: t) = String c rest /\ Ascii.eqb c sep = false.
Proof.
  intros Hk%keep_part_truthy Hf. destruct x as [|c x]; [done|].
  cbn [slash_free] in Hf. apply andb_true_iff in Hf as [Hc%negb_true_iff _].
  destruct t as [|y t].
  - by exists c, x.
  - exists c, (x +:+ "/" +:+ Str.join "/" (y :: t)). by split.
Qed.

(** Parsing the string made from a root and a non-empty tail gives them
    back. *)
Lemma parse_path_format r (t : list string) :
  r = "" \/ r = "/" \/ r = "//" ->
  t <> [] ->
  Forall (fun x => keep_part x = true) t ->
  Forall (fun x => slash_free x = true) t ->
  parse_path (r +:+ Str.join "/" t) = (r, t).
Proof.
  intros Hr Hne Hk Hf.
  assert (filter (fun x => Is_true (keep_part x)) (Str.split sep (Str.join "/" t)) = t)
    as Hparts by (by rewrite split_join_free, filter_all_kept).
  destruct t as [|x t]; [done|].
  destruct (join_head x t) as (c & rest & Hj & Hc);
    [by inversion Hk|by inversion Hf|].
  rewrite Hj in *.
  destruct Hr as [-> | [-> | ->]].
  - rewrite append_nil_l. unfold parse_path, splitroot. cbn [Str.truthy negb].
    by rewrite Hc, Hparts.
  - change ("/" +:+ String c rest) with (String sep (String c rest)).
    unfold parse_path, splitroot. cbn [Str.truthy negb].
    rewrite Ascii.eqb_refl, Hc. by rewrite Hparts.
  - change ("//" +:+ String c rest) with (String sep (String sep (String c rest))).
    unfold parse_path, splitroot. cbn [Str.truthy negb].
    rewrite !Ascii.eqb_refl, Hc. by rewrite Hparts.
Qed.

(** [str] is idempotent: a path made from the string of a path has the
    same string. *)
Lemma str_str p : str (mkPath (str p)) = str p.
Proof.
  destruct (tail p) as [|x t] eqn:Ht.
  - destruct (root_cases p) as [Hr | [Hr | Hr]].
    + assert (str p = ".") as -> by (unfold str; by rewrite Ht, Hr). done.
    + assert (str p = "/") as -> by (unfold str; by rewrite Ht, Hr). done.
    + assert (str p = "//") as -> by (unfold str; by rewrite Ht, Hr). done.
  - assert (str p = root p +:+ Str.join "/" (tail p)) as Hstr.
    { unfold str. rewrite Ht.
      destruct (join_head x t) as (c & rest & -> & _).
      - pose proof (tail_kept p) as H. rewrite Ht in H. by inversion H.
      - pose proof (tail_slash_free p) as H. rewrite Ht in H. by inversion H.
      - by rewrite (append_truthy_r (root p) (String c rest)). }
    assert (parse_path (str p) = (root p, tail p)) as Hparse.
    { rewrite Hstr. apply parse_path_format.
      - apply root_cases.
      - by rewrite Ht.
      - apply tail_kept.
      - apply tail_slash_free. }
    unfold str at 1. unfold root at 1 2, tail at 1 2. cbn [raw].
    rewrite Hparse. cbn [fst snd]. by rewrite <- Hstr, Hstr at 1.
Qed.

(** X5.  The two modes agree: if the directory report maps a key to a
    list, then running the script in single-file mode on that key, a
    path that exists and is a regular file, prints the report that maps
    the same key to the same list, and ends normally. *)
Theorem X5_single_file_mode_reproduces_a_directory_entry W top report key defs :
  outcome (scan_directory W top) = inr report ->
  report !! key = Some defs ->
  fs_exists W key = inr true ->
  fs_is_file W key = inr true ->
  exists t,
    main W key = (t ++ [EStdout {[ key := defs ]}], inr tt) /\
    Forall (fun ev => is_output ev = false) t.
Proof.
  intros Hscan Hlook Hex Hfile.
  apply (scan_directory_lookup W top report _ _ Hscan) in Hlook
    as (root & dirs & files & file & _ & _ & -> & Hne & lang & Hget & Hout).
  set (p := truediv (mkPath root) file) in *.
  assert (str (mkPath (str p)) = str p) as Hkey by apply str_str.
  assert (outcome (extract_definitions W (mkPath (str p)) lang) = inr defs) as Hout'
    by by rewrite (extract_definitions_str W _ p lang Hkey).
  exists (trace (extract_definitions W (mkPath (str p)) lang)). split.
  - rewrite (main_file W (str p) lang); rewrite ?Hkey, ?suffix_str; try done.
    by rewrite (bind_inr _ _ _ Hout').
  - rewrite extract_definitions_eq.
    destruct (grammar_module lang) as [module|]; [|constructor].
    destruct (importable W module); [|by repeat constructor].
    destruct (binding_error W module) as [[cls err]|]; [by repeat constructor|].
    destruct (fs_read W _); by repeat constructor.
Qed.

Lemma X5_single_file_mode_witness :
  exists t,
    main demo_world "proj/a.py"
    = (t ++ [EStdout {[ "proj/a.py" := [Def "function" "foo" 1 1] ]}], inr tt) /\
    Forall (fun ev => is_output ev = false) t.
Proof.
  apply (X5_single_file_mode_reproduces_a_directory_entry demo_world (mkPath "proj")
           (<["proj/locked.c" := [Err "[Errno 13] Permission denied: 'proj/locked.c'"]]>
            (<["proj/locked.py" := [Err "[Errno 13] Permission denied: 'proj/locked.py'"]]>
            (<["proj/a.py" := [Def "function" "foo" 1 1]]> ∅)))).
  - vm_compute. reflexivity.
  - vm_compute. reflexivity.
  - reflexivity.
  - reflexivity.
Defined.

Lemma suffix_extension_named rt ext :
  In ext (dict_keys EXT_TO_LANG) -> suffix (truediv (mkPath rt) ext) = "".
Proof.
  intros Hext. destruct (extension_key_facts ext Hext) as (Hfree & Hkeep & Hsuf).
  unfold suffix. by rewrite name_truediv.
Qed.

(** X6.  In single-file mode a file whose whole name is a supported
    extension, such as [.py] in any directory, is refused: [main] prints
    the unsupported-extension message with an empty extension and ends
    normally, without importing a grammar or opening the file. *)
Theorem X6_single_file_named_like_an_extension_is_unsupported W dir ext :
  In ext (dict_keys EXT_TO_LANG) ->
  fs_exists W (str (truediv (mkPath dir) ext)) = inr true ->
  fs_is_file W (str (truediv (mkPath dir) ext)) = inr true ->
  main W (raw (truediv (mkPath dir) ext))
  = ([EStderr "Unsupported file extension: "], inr tt).
Proof.
  intros Hext Hex Hfile. rewrite main_eq.
  change (mkPath (raw (truediv (mkPath dir) ext))) with (truediv (mkPath dir) ext).
  by rewrite Hex, Hfile, (suffix_extension_named dir ext Hext).
Qed.

Lemma X6_single_file_named_like_an_extension_witness :
  main demo_world "proj/.py" = ([EStderr "Unsupported file extension: "], inr tt).
Proof.
  apply (X6_single_file_named_like_an_extension_is_unsupported demo_world "proj" ".py").
  - left. reflexivity.
  - reflexivity.
  - reflexivity.
Defined.

(** ** The records of one file *)

Lemma definition_of_record content node tag r :
  outcome (definition_of content node tag) = inr r ->
  record_for content (node, tag) r.
Proof.
  unfold definition_of, decode_utf8.
  destruct (utf8_valid _); [|done]. intros [= <-].
  eexists. split; [reflexivity|]. cbn [fst snd].
  apply String.list_byte_of_string_of_list_byte.
Qed.

Lemma collect_records content captures definitions defs :
  outcome (collect content captures definitions) = inr defs ->
  exists new,
    defs = definitions ++ new /\
    Forall2 (record_for content) (List.filter is_name_capture captures) new.
Proof.
  revert definitions.
  induction captures as [|[node tag] rest IH]; intros definitions.
  - intros [= <-]. exists []. by rewrite app_nil_r.
  - cbn [collect List.filter]. unfold is_name_capture at 1. cbn [snd].
    destruct (Str.endswith tag ".name").
    + intros (r & Hr & Hrest)%outcome_bind_inv.
      apply IH in Hrest as (new & -> & Hnew).
      exists (r :: new). rewrite <- app_assoc. split; [done|].
      constructor; [|done]. by apply definition_of_record.
    + apply IH.
Qed.

(** X7.  When the grammar has a query and the file was read, the result
    has exactly one record for each capture whose tag ends with [.name],
    in the order of the captures, and nothing for the other captures.
    Each record has type [function] when the tag contains [func] and
    [class] otherwise, a name whose UTF-8 encoding is the captured byte
    range of the file, and the rows of the captured node plus one as
    lines. *)
Theorem X7_one_record_per_name_capture_in_order
    W file_path lang module source content defs :
  grammar_module lang = Some module ->
  importable W module = true ->
  fs_read W (str file_path) = inr content ->
  select_query lang = Some source ->
  outcome (extract_definitions W file_path lang) = inr defs ->
  Forall2 (record_for content)
    (List.filter is_name_capture
       (ts_captures W source (mkTree (language module) content)))
    defs.
Proof.
  intros Hmod Himp Hread Hq.
  rewrite extract_definitions_eq, Hmod, Himp.
  destruct (binding_error W module) as [[cls err]|]; [done|].
  rewrite Hread, Hq. cbn [outcome snd].
  by intros (new & -> & Hnew)%collect_records.
Qed.

Lemma X7_one_record_per_name_capture_witness :
  Forall2 (record_for a_py_source)
    (List.filter is_name_capture
       (ts_captures demo_world python_query
          (mkTree (language "tree_sitter_python") a_py_source)))
    [Def "function" "foo" 1 1].
Proof.
  apply (X7_one_record_per_name_capture_in_order demo_world (mkPath "a.py")
           "python" "tree_sitter_python" python_query a_py_source).
  - reflexivity.
  - reflexivity.
  - reflexivity.
  - reflexivity.
  - vm_compute. reflexivity.
Defined.

(** X8.  Neither the [ImportError] of a grammar import nor the [OSError]
    of a failed read ever leaves [extract_definitions]: the first makes it
    return the empty list, the second the error record. *)
Theorem X8_import_and_read_failures_do_not_propagate W file_path lang :
  (forall module,
     outcome (extract_definitions W file_path lang) <> inl (ImportError module)) /\
  (forall msg,
     outcome (extract_definitions W file_path lang) <> inl (OSError msg)) /\
  (forall module,
     grammar_module lang = Some module -> importable W module = false ->
     outcome (extract_definitions W file_path lang) = inr []) /\
  (forall parser msg,
     outcome (get_parser W lang) = inr (Some parser) ->
     fs_read W (str file_path) = inl msg ->
     outcome (extract_definitions W file_path lang) = inr [Err msg]).
Proof.
  split; [|split; [|split]].
  - by intros module H%extract_raises.
  - by intros msg H%extract_raises.
  - intros module Hmod Himp. by rewrite extract_definitions_eq, Hmod, Himp.
  - intros parser msg (module & Hmod & Himp & Hbind)%get_parser_Some Hread.
    by rewrite extract_definitions_eq, Hmod, Himp, Hbind, Hread.
Qed.

(** X9.  A result list never mixes an error with definitions: it is
    either the single record [{error: message}] of a failed read, or it
    holds only definition records, each of type [function] or [class]. *)
Theorem X9_result_is_one_error_or_only_definitions W file_path lang defs :
  outcome (extract_definitions W file_path lang) = inr defs ->
  (exists msg, defs = [Err msg] /\ fs_read W (str file_path) = inl msg) \/
  Forall (fun r => exists def_type name start_line end_line,
            r = Def def_type name start_line end_line /\
            (def_type = "function" \/ def_type = "class")) defs.
Proof.
  rewrite extract_definitions_eq.
  destruct (grammar_module lang) as [module|]; [|intros [= <-]; by right].
  destruct (importable W module); [|intros [= <-]; by right].
  destruct (binding_error W module) as [[cls err]|]; [done|].
  destruct (fs_read W (str file_path)) as [msg|content].
  { intros [= <-]. left. by exists msg. }
  cbn [outcome snd]. destruct (select_query lang) as [source|];
    [|intros [= <-]; by right].
  intros (new & -> & Hnew)%collect_records. right. cbn [app].
  induction Hnew as [|capture r captures new (name & -> & _) _ IH]; [done|].
  constructor; [|done]. do 4 eexists. split; [reflexivity|].
  destruct (Str.contains "func" (snd capture)); auto.
Qed.

Lemma X9_result_witness :
  (exists msg,
     [Err "[Errno 13] Permission denied: 'proj/locked.c'"] = [Err msg] /\
     fs_read demo_world (str (mkPath "proj/locked.c")) = inl msg) \/
  Forall (fun r => exists def_type name start_line end_line,
            r = Def def_type name start_line end_line /\
            (def_type = "function" \/ def_type = "class"))
    [Err "[Errno 13] Permission denied: 'proj/locked.c'"].
Proof.
  apply (X9_result_is_one_error_or_only_definitions demo_world
           (mkPath "proj/locked.c") "c").
  vm_compute. reflexivity.
Defined.

(** ** The effects of a run *)

Lemma extract_trace_Forall (Q : event -> Prop) W file_path lang :
  (forall module, Q (EImport module)) ->
  Q (EOpen (str file_path)) ->
  Forall Q (trace (extract_definitions W file_path lang)).
Proof.
  intros Himport Hopen. rewrite extract_definitions_eq.
  destruct (grammar_module lang) as [module|]; [|constructor].
  destruct (importable W module); [|by repeat constructor].
  destruct (binding_error W module) as [[cls err]|]; [by repeat constructor|].
  destruct (fs_read W (str file_path)); by repeat constructor.
Qed.

Lemma scan_file_trace_Forall (Q : event -> Prop) W root file st :
  (forall module, Q (EImport module)) ->
  (is_Some (dict_get EXT_TO_LANG (suffix (truediv (mkPath root) file))) ->
   Q (EOpen (str (truediv (mkPath root) file)))) ->
  Forall Q (trace (scan_file W root file st)).
Proof.
  intros Himport Hopen. rewrite scan_file_eq.
  destruct (dict_get EXT_TO_LANG _) as [lang|]; [|constructor].
  apply trace_bind_Forall.
  - apply extract_trace_Forall; [done|]. by apply Hopen.
  - intros [|r defs] _; constructor.
Qed.

Lemma scan_files_trace_Forall (Q : event -> Prop) W root files st :
  (forall file st, Forall Q (trace (scan_file W root file st))) ->
  Forall Q (trace (scan_files W root files st)).
Proof.
  intros Hstep. revert st.
  induction files as [|file files IH]; intros st; [constructor|].
  cbn [scan_files]. apply trace_bind_Forall; [apply Hstep|]. intros; apply IH.
Qed.

Lemma scan_walk_trace_Forall (Q : event -> Prop) W entries st :
  (forall root file st, Forall Q (trace (scan_file W root file st))) ->
  Forall Q (trace (scan_walk W entries st)).
Proof.
  intros Hstep. revert st.
  induction entries as [|[[root dirs] files] entries IH]; intros st; [constructor|].
  cbn [scan_walk]. apply trace_bind_Forall.
  - apply scan_files_trace_Forall. intros; apply Hstep.
  - intros; apply IH.
Qed.

Lemma scan_directory_trace_Forall (Q : event -> Prop) W top :
  (forall module, Q (EImport module)) ->
  (forall p, In (suffix p) (dict_keys EXT_TO_LANG) -> Q (EOpen (str p))) ->
  Forall Q (trace (scan_directory W top)).
Proof.
  intros Himport Hopen. apply scan_walk_trace_Forall. intros root file st.
  apply scan_file_trace_Forall; [done|].
  intros Hsome. apply Hopen. by apply dict_get_keys.
Qed.

Lemma main_trace_Forall (Q : event -> Prop) W arg :
  (forall module, Q (EImport module)) ->
  (forall p, In (suffix p) (dict_keys EXT_TO_LANG) -> Q (EOpen (str p))) ->
  (forall result, Q (EStdout result)) ->
  (forall line, Q (EStderr line)) ->
  Forall Q (trace (main W arg)).
Proof.
  intros Himport Hopen Hout Herr. rewrite main_eq.
  destruct (fs_exists W _) as [msg|[|]]; [constructor| |by repeat constructor].
  destruct (fs_is_file W _) as [msg|[|]]; [constructor| |].
  - destruct (dict_get EXT_TO_LANG (suffix (mkPath arg))) as [lang|] eqn:Hget;
      [|by repeat constructor].
    apply trace_bind_Forall; [|by repeat constructor].
    apply extract_trace_Forall; [done|].
    apply Hopen, dict_get_keys. by rewrite Hget.
  - apply trace_bind_Forall; [|by repeat constructor].
    by apply scan_directory_trace_Forall.
Qed.

(** X10.  Whatever the target, a run only opens files whose path suffix
    is a key of [EXT_TO_LANG]: no other file under a scanned directory is
    ever read. *)
Theorem X10_only_files_with_a_supported_suffix_are_opened W arg path :
  In (EOpen path) (trace (script W arg)) ->
  In (suffix (mkPath path)) (dict_keys EXT_TO_LANG).
Proof.
  rewrite script_eq.
  destruct (importable W "tree_sitter"); [|by intros [|[|[]]]].
  cbn [trace fst]. intros [Hin|Hin]; [done|].
  pose proof (main_trace_Forall
    (fun ev => forall q, ev = EOpen q -> In (suffix (mkPath q)) (dict_keys EXT_TO_LANG))
    W arg) as Hall.
  eapply Forall_forall in Hall; [by apply Hall| | | | |by apply list_elem_of_In].
  - by intros module q.
  - intros p Hp q [= <-]. by rewrite suffix_str.
  - by intros result q.
  - by intros line q.
Qed.

Lemma X10_only_supported_files_opened_witness :
  In (EOpen "proj/locked.c") (trace (script demo_world "proj")) /\
  In (suffix (mkPath "proj/locked.c")) (dict_keys EXT_TO_LANG).
Proof.
  assert (In (EOpen "proj/locked.c") (trace (script demo_world "proj"))) as Hin.
  { vm_compute. do 9 right. left. reflexivity. }
  split; [exact Hin|].
  exact (X10_only_files_with_a_supported_suffix_are_opened demo_world "proj"
           "proj/locked.c" Hin).
Defined.





Lemma scan_files_unsupported W root files st :
  (forall file, In file files ->
     dict_get EXT_TO_LANG (suffix (truediv (mkPath root) file)) = None) ->
  scan_files W root files st = ([], inr st).
Proof.
  induction files as [|file files IH]; intros Hnone; [done|].
  cbn [scan_files].
  assert (scan_file W root file st = ([], inr st)) as Hstep.
  { rewrite scan_file_eq. by rewrite (Hnone file (or_introl eq_refl)). }
  erewrite bind_inr by (by rewrite Hstep).
  rewrite Hstep. cbn [trace outcome fst snd app].
  rewrite IH by (intros f Hf; apply Hnone; by right). done.
Qed.

Lemma scan_walk_unsupported W entries st :
  (forall root dirs files file,
     In (root, dirs, files) entries -> In file files ->
     dict_get EXT_TO_LANG (suffix (truediv (mkPath root) file)) = None) ->
  scan_walk W entries st = ([], inr st).
Proof.
  induction entries as [|[[root dirs] files] entries IH]; intros Hnone; [done|].
  cbn [scan_walk].
  assert (scan_files W root files st = ([], inr st)) as Hfiles.
  { apply scan_files_unsupported. intros file Hin.
    apply (Hnone root dirs files file); [by left|done]. }
  erewrite bind_inr by (by rewrite Hfiles).
  rewrite Hfiles. cbn [trace outcome fst snd app].
  rewrite IH; [done|]. intros r d fs f Hin. apply (Hnone r d fs f). by right.
Qed.

(** X12.  For a directory in which no walked file has a suffix in
    [EXT_TO_LANG] (an empty directory included), [main] imports no
    grammar and opens no file: its only effect is to print the empty
    report, and it ends normally. *)
Theorem X12_directory_without_supported_files_prints_empty_report W arg :
  fs_exists W (str (mkPath arg)) = inr true ->
  fs_is_file W (str (mkPath arg)) = inr false ->
  (forall root dirs files file,
     In (root, dirs, files) (os_walk W (str (mkPath arg))) ->
     In file files ->
     dict_get EXT_TO_LANG (suffix (truediv (mkPath root) file)) = None) ->
  main W arg = ([EStdout ∅], inr tt).
Proof.
  intros Hex Hfile Hnone. rewrite main_eq, Hex, Hfile.
  assert (scan_directory W (mkPath arg) = ([], inr ∅)) as Hscan
    by (by apply scan_walk_unsupported).
  erewrite bind_inr by (by rewrite Hscan).
  by rewrite Hscan.
Qed.

Lemma X12_directory_without_supported_files_witness :
  main docs_world "docs" = ([EStdout ∅], inr tt).
Proof.
  apply (X12_directory_without_supported_files_prints_empty_report docs_world "docs").
  - reflexivity.
  - reflexivity.
  - intros root dirs files file [[= <- <- <-]|[]] [<-|[<-|[]]]; reflexivity.
Defined.

(** X13.  The report does not depend on the order in which the walk
    yields directories and files, nor on a file being yielded more than
    once: two walks over the same set of files give the same mapping. *)
Theorem X13_report_independent_of_walk_order W entries entries' report report' :
  (forall root file,
     (exists dirs files, In (root, dirs, files) entries /\ In file files) <->
     (exists dirs files, In (root, dirs, files) entries' /\ In file files)) ->
  outcome (scan_walk W entries ∅) = inr report ->
  outcome (scan_walk W entries' ∅) = inr report' ->
  report = report'.
Proof.
  intros Hsame Hscan Hscan'.
  assert (report_sound W ∅) as Hempty by (intros k d; by rewrite lookup_empty).
  destruct (scan_walk_lookup W _ _ _ Hempty Hscan) as [_ H].
  destruct (scan_walk_lookup W _ _ _ Hempty Hscan') as [_ H'].
  apply map_eq. intros key. apply option_eq. intros defs.
  rewrite H, H', lookup_empty. split.
  - intros [?|(root & dirs & files & file & Hin & Hf & Hc)]; [done|]. right.
    destruct (proj1 (Hsame root file)) as (dirs' & files' & Hin' & Hf'); [by eauto|].
    by exists root, dirs', files', file.
  - intros [?|(root & dirs & files & file & Hin & Hf & Hc)]; [done|]. right.
    destruct (proj2 (Hsame root file)) as (dirs' & files' & Hin' & Hf'); [by eauto|].
    by exists root, dirs', files', file.
Qed.

Lemma X13_report_independent_of_walk_order_witness :
  let report : Report :=
    <["proj/locked.c" := [Err "[Errno 13] Permission denied: 'proj/locked.c'"]]>
    (<["proj/a.py" := [Def "function" "foo" 1 1]]> ∅) in
  outcome (scan_walk demo_world [("proj", [], ["a.py"; "locked.c"])] ∅) = inr report /\
  outcome (scan_walk demo_world
             [("proj", ["sub"], ["locked.c"]); ("proj", [], ["a.py"; "locked.c"])] ∅)
  = inr report.
Proof.
  intros report.
  assert (outcome (scan_walk demo_world [("proj", [], ["a.py"; "locked.c"])] ∅)
          = inr report) as Hscan by (vm_compute; reflexivity).
  split; [exact Hscan|].
  destruct (outcome (scan_walk demo_world
              [("proj", ["sub"], ["locked.c"]); ("proj", [], ["a.py"; "locked.c"])] ∅))
    as [e|report'] eqn:Hscan'; [by vm_compute in Hscan'|].
  f_equal. symmetry.
  apply (X13_report_independent_of_walk_order demo_world
           [("proj", [], ["a.py"; "locked.c"])]
           [("proj", ["sub"], ["locked.c"]); ("proj", [], ["a.py"; "locked.c"])]
           report report'); [|exact Hscan|exact Hscan'].
  intros root file. split.
  - intros (dirs & files & [[= <- <- <-]|[]] & Hf).
    exists [], ["a.py"; "locked.c"]. split; [right; left; reflexivity|exact Hf].
  - intros (dirs & files & [[= <- <- <-]|[[= <- <- <-]|[]]] & Hf).
    + exists [], ["a.py"; "locked.c"]. split; [left; reflexivity|].
      destruct Hf as [<-|[]]. right. left. reflexivity.
    + exists [], ["a.py"; "locked.c"]. split; [left; reflexivity|exact Hf].
Defined.
